(** * news_scrapper: the collector, the persistence phase and the utilities

    A shallow embedding of [scraper_utils.py] and [news_collector.py].
    Python code that reads or changes interpreter state (the logging
    registry, the class attribute of [NewsScrapperError], the calls made
    on loggers and on the storage API, standard output, files) is written
    in a state-and-exception monad over [World]; the generator
    [retrieve_registered_news_by_rss] additionally carries the sequence
    of values it yields. *)

From Stdlib Require Import ZArith Ascii String List Lia.
From stdpp Require Import base option list strings gmap pretty.

Set Default Proof Using "Type".

(** ** Exceptions *)

(** The exception classes the two modules raise, catch or let through.
    [HTTPError] is a subclass of [URLError] in [urllib.error]; the
    handlers below test for [HTTPError] first, as the source does. *)
Inductive exn : Type :=
| NewsScrapperError (msg : string)
| HTTPError (code : Z)
| URLError (reason : string)
| TimeoutError (msg : string)
| AttributeError
| KeyError
| OtherError (cls : string).

Inductive result (A : Type) : Type :=
| Return (a : A)
| Raise (e : exn).
Arguments Return {A} a.
Arguments Raise {A} e.

(** The exception a body ended with, as [__exit__] receives it. *)
Definition exc_of {A} (r : result A) : option exn :=
  match r with
  | Raise e => Some e
  | Return _ => None
  end.

(** The values a call of [main] can hand back. *)
Inductive pyvalue : Type :=
| PyNone
| PyInt (z : Z)
| PyPair (first second : pyvalue).

(** ** Logging state *)

Inductive level : Type := LvDebug | LvInfo | LvWarning | LvError.

Inductive handler : Type :=
| FileHandler (filename : string) (fmt : string)
| StreamHandler (fmt : string).

Record Logger : Type := mkLogger {
  lg_level : option level;
  lg_handlers : list handler
}.

(** One call of a logging method: on which logger, which method, which
    message.  Level filtering and handler output belong to the logging
    library and are not modelled. *)
Record log_record : Type := mkLog {
  rec_logger : string;
  rec_level : level;
  rec_msg : string
}.

(** Calls on the storage connection and on [NewsDatabaseAPI], in the
    order they are made. *)
Inductive db_call (Rule News : Type) : Type :=
| Acquire (database : string)
| StoreRule (table_prefix : string) (r : Rule)
| StoreNews (table_prefix : string) (n : News)
| Release (exc : option exn).
Arguments Acquire {Rule News} database.
Arguments StoreRule {Rule News} table_prefix r.
Arguments StoreNews {Rule News} table_prefix n.
Arguments Release {Rule News} exc.

Section Program.

(** Types of the collaborators that are not part of the two modules:
    rules and news entries (objects of [news_data]), the state of the
    storage backend, a news source object, a category name, a fetched
    raw feed and a parsed feed. *)
Context {Rule News DB Heap Source Category Raw Feed : Type}.

(** What the program reads and changes.  [loggerDict] is
    [logging.Logger.manager.loggerDict], [root_logger] the root logger
    (which is not in that dictionary), [NewsScrapperError_logger] the
    class attribute [NewsScrapperError.logger].  News entries and rules
    are object references; [heap] holds the attributes of those objects
    and is changed only by the collaborators that own them. *)
Record World : Type := mkWorld {
  loggerDict : gmap string Logger;
  root_logger : Logger;
  NewsScrapperError_logger : option string;
  log_calls : list log_record;
  db_calls : list (db_call Rule News);
  storage : DB;
  heap : Heap;
  stdout : list string;
  files : gmap string (list string);
  clock : Z
}.

(** ** The state-and-exception monad *)

Definition M (A : Type) : Type := World → result A * World.

Definition ret {A} (a : A) : M A := λ w, (Return a, w).
Definition raise {A} (e : exn) : M A := λ w, (Raise e, w).
Definition bind {A B} (m : M A) (f : A → M B) : M B := λ w,
  match m w with
  | (Return a, w') => f a w'
  | (Raise e, w') => (Raise e, w')
  end.
Definition gets {A} (f : World → A) : M A := λ w, (Return (f w), w).
Definition modify (f : World → World) : M unit := λ w, (Return tt, f w).

(** [try: body except h]: [h e = None] means that no [except] clause
    matches [e], which then propagates. *)
Definition try_except {A} (body : M A) (h : exn → option (M A)) : M A := λ w,
  match body w with
  | (Return a, w') => (Return a, w')
  | (Raise e, w') =>
      match h e with
      | Some k => k w'
      | None => (Raise e, w')
      end
  end.

#[global] Instance M_bind : MBind M := λ A B f m, bind m f.
#[global] Instance M_ret : MRet M := λ A a, ret a.

Fixpoint for_each {A} (l : list A) (body : A → M unit) : M unit :=
  match l with
  | [] => ret tt
  | x :: l' => body x;; for_each l' body
  end.

(** ** scraper_utils.py *)

Definition DEFAULT_LOG_FORMAT : string :=
  "[%(levelname)s] [%(asctime)s] %(message)s" +:+ String "010"%char EmptyString.

Definition set_loggerDict (d : gmap string Logger) (w : World) : World :=
  mkWorld d (root_logger w) (NewsScrapperError_logger w) (log_calls w) (db_calls w)
          (storage w) (heap w) (stdout w) (files w) (clock w).
Definition set_root_logger (l : Logger) (w : World) : World :=
  mkWorld (loggerDict w) l (NewsScrapperError_logger w) (log_calls w) (db_calls w)
          (storage w) (heap w) (stdout w) (files w) (clock w).
Definition set_NewsScrapperError_logger (l : option string) (w : World) : World :=
  mkWorld (loggerDict w) (root_logger w) l (log_calls w) (db_calls w)
          (storage w) (heap w) (stdout w) (files w) (clock w).
Definition add_log (r : log_record) (w : World) : World :=
  mkWorld (loggerDict w) (root_logger w) (NewsScrapperError_logger w)
          (log_calls w ++ [r]) (db_calls w)
          (storage w) (heap w) (stdout w) (files w) (clock w).
Definition add_db_call (c : db_call Rule News) (w : World) : World :=
  mkWorld (loggerDict w) (root_logger w) (NewsScrapperError_logger w)
          (log_calls w) (db_calls w ++ [c])
          (storage w) (heap w) (stdout w) (files w) (clock w).
Definition set_storage (d : DB) (w : World) : World :=
  mkWorld (loggerDict w) (root_logger w) (NewsScrapperError_logger w)
          (log_calls w) (db_calls w)
          d (heap w) (stdout w) (files w) (clock w).
Definition add_stdout (line : string) (w : World) : World :=
  mkWorld (loggerDict w) (root_logger w) (NewsScrapperError_logger w)
          (log_calls w) (db_calls w)
          (storage w) (heap w) (stdout w ++ [line]) (files w) (clock w).
Definition set_files (f : gmap string (list string)) (w : World) : World :=
  mkWorld (loggerDict w) (root_logger w) (NewsScrapperError_logger w)
          (log_calls w) (db_calls w)
          (storage w) (heap w) (stdout w) f (clock w).

(** What the logging library does for [setup_logger] depends on more
    than the state of the program.  [logging.Formatter(fmt)] validates
    the format and raises [ValueError] for one without a field (as for
    ['100%']); [logging.FileHandler(filename)] opens the file at once
    and raises what [open] raises for a path that cannot be opened for
    appending (a directory, a missing parent directory).  Both are
    given by the environment of a run.  The format and the file the
    program itself passes, [DEFAULT_LOG_FORMAT] and [error.log], are
    taken to be accepted: an interpreter that cannot open [error.log]
    in its working directory is outside this development. *)
Class LoggingEnv : Type := {
  Formatter_error : string → option exn;
  FileHandler_error : string → option exn;
  DEFAULT_LOG_FORMAT_accepted : Formatter_error DEFAULT_LOG_FORMAT = None;
  error_log_opens : FileHandler_error "error.log" = None
}.

Context {env : LoggingEnv}.

(** [logging.getLogger] returns the root logger for the names [''] and
    ['root']. *)
Definition is_root_name (name : string) : bool :=
  bool_decide (name = EmptyString) || bool_decide (name = "root").

Fixpoint dot_positions (i : nat) (s : string) : list nat :=
  match s with
  | EmptyString => []
  | String c s' =>
      (if decide (c = "."%char) then [i] else []) ++ dot_positions (S i) s'
  end.

(** The loop of [Manager._fixupParents] over the dots of a name, given
    from the right: [i = name.rfind(".")], then while [i > 0] the next
    is [i = name.rfind(".", 0, i - 1)], a search among the positions
    below [i - 1]. *)
Fixpoint parent_cuts (dots : list nat) (bound : option nat) : list nat :=
  match dots with
  | [] => []
  | i :: dots' =>
      if (if bound is Some b then i <? b else true)
      then if 0 <? i then i :: parent_cuts dots' (Some (i - 1)) else []
      else parent_cuts dots' bound
  end.

(** The names [name[:i]] under which [_fixupParents] looks for a parent
    of the logger [name]: [a.b] and [a] for [a.b.c], none for a name
    without a dot. *)
Definition parents (name : string) : list string :=
  (λ i, String.substring 0 i name) <$> parent_cuts (rev (dot_positions 0 name)) None.

(** [loggerDict[substr] = PlaceHolder(alogger)] for the names not yet in
    the dictionary.  An entry of [loggerDict] stands for a [Logger] or
    for a [PlaceHolder]: the latter is kept as a logger without level
    and handlers, which is what [getLogger] puts in its place when the
    name is asked for, and like a logger it makes [name in loggerDict]
    true. *)
Definition register_missing (names : list string) (d : gmap string Logger)
    : gmap string Logger :=
  foldl (λ d substr,
           match d !! substr with
           | Some _ => d
           | None => <[substr := mkLogger None []]> d
           end) d names.

(** [logging.getLogger(name)]: the root logger for its two names,
    otherwise the logger of that name, created and registered on first
    use together with a placeholder for each parent that is missing.
    [_fixupParents] stops at the first parent that is a logger, whose
    own parents are in the dictionary since it was created; the two
    agree as long as no name has two dots in a row.  A logger object
    is represented by its name, the root logger by [root]. *)
Definition getLogger (name : string) : M string :=
  if is_root_name name then ret "root"
  else
    d ← gets loggerDict;
    match d !! name with
    | Some _ => ret name
    | None =>
        modify (set_loggerDict
                  (register_missing (parents name) (<[name := mkLogger None []]> d)));;
        ret name
    end.

(** A change of the attributes of a logger object. *)
Definition alter_logger (logger : string) (f : Logger → Logger) : M unit :=
  if decide (logger = "root")
  then modify (λ w, set_root_logger (f (root_logger w)) w)
  else modify (λ w, set_loggerDict (alter f logger (loggerDict w)) w).

(** [logging.Formatter(fmt)]. *)
Definition Formatter (fmt : string) : M unit :=
  match Formatter_error fmt with
  | Some e => raise e
  | None => ret tt
  end.

(** [logging.FileHandler(filename)] opens the file for appending: a
    file that is not there is created, one that is there keeps its
    lines. *)
Definition FileHandler_init (filename : string) : M unit :=
  match FileHandler_error filename with
  | Some e => raise e
  | None =>
      modify (λ w, match files w !! filename with
                   | Some _ => w
                   | None => set_files (<[filename := []]> (files w)) w
                   end)
  end.

(** [logger.warning(msg)], [logger.error(msg)] and the like. *)
Definition logger_call (logger : string) (lv : level) (msg : string) : M unit :=
  modify (add_log (mkLog logger lv msg)).

Definition logfile_given (logfile : option string) : option string :=
  match logfile with
  | Some EmptyString => None
  | other => other
  end.

Definition setup_logger (name : string) (lv : level) (logfile : option string)
    (to_console : bool) (log_format : string) : M string :=
  Formatter log_format;;
  logger ← getLogger name;
  alter_logger logger (λ l, mkLogger (Some lv) (lg_handlers l));;
  match logfile_given logfile with
  | Some f =>
      FileHandler_init f;;
      alter_logger logger
        (λ l, mkLogger (lg_level l) (lg_handlers l ++ [FileHandler f log_format]))
  | None => ret tt
  end;;
  (if to_console
   then alter_logger logger
          (λ l, mkLogger (lg_level l) (lg_handlers l ++ [StreamHandler log_format]))
   else ret tt);;
  ret logger.

(** [NewsScrapperError.setup_error_logger]. *)
Definition setup_error_logger : M unit :=
  d ← gets loggerDict;
  if decide (is_Some (d !! "error_log"))
  then l ← getLogger "error_log";
       modify (set_NewsScrapperError_logger (Some l))
  else l ← setup_logger "error_log" LvWarning (Some "error.log") true DEFAULT_LOG_FORMAT;
       modify (set_NewsScrapperError_logger (Some l)).

(** [NewsScrapperError.__init__]: building the exception sets up the
    logger of the class when it has none and logs the message as an
    error. *)
Definition NewsScrapperError_init (msg : string) : M exn :=
  cur ← gets NewsScrapperError_logger;
  (if cur is None then setup_error_logger else ret tt);;
  cur ← gets NewsScrapperError_logger;
  match cur with
  | Some l => logger_call l LvError msg
  | None => raise AttributeError
  end;;
  ret (NewsScrapperError msg).

Definition raise_NewsScrapperError {A} (msg : string) : M A :=
  e ← NewsScrapperError_init msg; raise e.

Definition log_warning (msg : string) (is_error : bool) : M unit :=
  d ← gets loggerDict;
  if decide (is_Some (d !! "error_log")) then
    if is_error
    then l ← getLogger "error_log"; logger_call l LvError msg
    else l ← getLogger "error_log"; logger_call l LvWarning msg
  else raise_NewsScrapperError "Please set up 'error_log' logger first.".

(** *** The pattern [^https?://([a-zA-Z0-9.-]+)/] *)

Definition in_range (lo hi c : ascii) : bool :=
  (nat_of_ascii lo <=? nat_of_ascii c)%nat && (nat_of_ascii c <=? nat_of_ascii hi)%nat.

(** The character class [[a-zA-Z0-9.-]]. *)
Definition host_char (c : ascii) : bool :=
  in_range "a" "z" c || in_range "A" "Z" c || in_range "0" "9" c
  || bool_decide (c = "."%char) || bool_decide (c = "-"%char).

Fixpoint strip_prefix (p s : string) : option string :=
  match p, s with
  | EmptyString, _ => Some s
  | String a p', String b s' => if decide (a = b) then strip_prefix p' s' else None
  | String _ _, EmptyString => None
  end.

(** The longest prefix of class characters and what follows it. *)
Fixpoint span_host (s : string) : string * string :=
  match s with
  | String c s' =>
      if host_char c
      then let '(h, t) := span_host s' in (String c h, t)
      else (EmptyString, s)
  | EmptyString => (EmptyString, EmptyString)
  end.

(** [base_url_pattern.match(link)], giving [group(1)] of the match.
    Neither [s?] nor the greedy [+] ever has to give a character back:
    after [http] the next character decides the optional [s], and the
    [/] that must follow the group is not in the class. *)
Definition base_url_pattern_match (link : string) : option string :=
  r ← strip_prefix "http" link;
  let r := default r (strip_prefix "s" r) in
  r ← strip_prefix "://" r;
  let '(host, tail) := span_host r in
  match host, tail with
  | String _ _, String c _ => if decide (c = "/"%char) then Some host else None
  | _, _ => None
  end.

Fixpoint char_in (c : ascii) (chars : string) : bool :=
  match chars with
  | EmptyString => false
  | String d chars' => bool_decide (c = d) || char_in c chars'
  end.

(** [str.lstrip(chars)]: drops leading characters while they occur in
    [chars]. *)
Fixpoint lstrip (chars s : string) : string :=
  match s with
  | String c s' => if char_in c chars then lstrip chars s' else s
  | EmptyString => EmptyString
  end.

Definition extract_domain_name_from_url (link : string) : M (option string) :=
  try_except
    (match base_url_pattern_match link with
     | Some group1 => ret (Some (lstrip "www." group1))
     | None => raise AttributeError
     end)
    (λ e, match e with
          | AttributeError =>
              Some (log_warning
                      ("News link [" +:+ link +:+ "] does not match base_url_pattern.")
                      false;;
                    ret None)
          | _ => None
          end).

(** ** The logging module functions used by news_collector.py *)

Definition BASIC_FORMAT : string := "%(levelname)s:%(name)s:%(message)s".

(** [logging.basicConfig(level=lv, format=fmt)]: does nothing when the
    root logger already has a handler; otherwise it builds the
    formatter (of a given format, or of [BASIC_FORMAT], which the
    library accepts) before it touches the root logger. *)
Definition basicConfig (lv : option level) (fmt : option string) : M unit :=
  root ← gets root_logger;
  match lg_handlers root with
  | [] =>
      (if fmt is Some given then Formatter given else ret tt);;
      modify (set_root_logger
                (mkLogger (if lv is Some _ then lv else lg_level root)
                          [StreamHandler (default BASIC_FORMAT fmt)]))
  | _ :: _ => ret tt
  end.

(** [logging.info(msg)]: the module-level function configures the root
    logger when it has no handler, then calls [root.info]. *)
Definition logging_info (msg : string) : M unit :=
  basicConfig None None;;
  logger_call "root" LvInfo msg.

(** ** news_collector.py: the persistence phase *)

Definition MAX_WORKERS : positive := 10.
Definition RSS_WORKER_TIMEOUT : Z := 120.

Record Connection : Type := mkConnection { conn_database : string }.

Record NewsDatabaseAPI : Type := mkNewsDatabaseAPI {
  api_conn : Connection;
  table_prefix : string
}.

(** The two methods of [NewsDatabaseAPI] (module [store_data_to_db]) the
    phase calls.  Each acts on the state of the backend and returns or
    raises. *)
Class StorageAPI : Type := {
  store_a_scraping_rule_to_db : NewsDatabaseAPI → Rule → DB → result unit * DB;
  store_a_rss_news_entry_to_db : NewsDatabaseAPI → News → DB → result unit * DB
}.

Context {storage_api : StorageAPI}.

Definition on_storage (f : DB → result unit * DB) : M unit := λ w,
  let '(r, d) := f (storage w) in (r, set_storage d w).

Definition call_store_a_scraping_rule_to_db (db_api : NewsDatabaseAPI) (rule : Rule)
    : M unit :=
  modify (add_db_call (StoreRule (table_prefix db_api) rule));;
  on_storage (store_a_scraping_rule_to_db db_api rule).

Definition call_store_a_rss_news_entry_to_db (db_api : NewsDatabaseAPI) (news : News)
    : M unit :=
  modify (add_db_call (StoreNews (table_prefix db_api) news));;
  on_storage (store_a_rss_news_entry_to_db db_api news).

(** Modelled from the spec: class [PostgreSqlDB] of [db_operation_api.mydb]
    is not under src/.  The spec gives the backend "a scoped connection
    factory open(config) -> Connection ... usable inside a with-style
    scoped block guaranteeing close on exit", and has a persistence
    failure "surfaced to the caller as a fatal run failure; the scoped
    connection is still released": [__enter__] acquires the connection,
    [__exit__] releases it and returns a false value. *)
Definition PostgreSqlDB_enter (database : string) : M Connection :=
  modify (add_db_call (Acquire database));;
  ret (mkConnection database).

Definition PostgreSqlDB_exit (conn : Connection) (exc : option exn) : M bool :=
  modify (add_db_call (Release exc));;
  ret false.

(** [with cm as x: body]: [exit] is called on both ways out of the body;
    a true result of [exit] swallows the exception. *)
Definition with_as {C} (enter : M C) (exit : C → option exn → M bool)
    (body : C → M unit) : M unit :=
  x ← enter;
  ((λ w, match body x w with
         | (Return _, w') => (exit x None;; ret tt) w'
         | (Raise e, w') =>
             (swallow ← exit x (Some e);
              if swallow : bool then ret tt else raise e) w'
         end) : M unit).

Definition save_data_into_database (databse_name : string)
    (scraping_rules : list Rule) (news_entries : list News) : M unit :=
  with_as (PostgreSqlDB_enter databse_name) PostgreSqlDB_exit (λ conn,
    let db_api := mkNewsDatabaseAPI conn "shownews_" in
    for_each scraping_rules (λ rule,
      call_store_a_scraping_rule_to_db db_api rule);;
    for_each news_entries (λ news,
      call_store_a_rss_news_entry_to_db db_api news)).

(** ** news_collector.py: the concurrent collector *)

(** The news source objects (module [news_sources]).  The registry lists
    the instances [NewsSourceClass()] in the order of
    [news_source_registry.items()], each under its class name. *)
Class NewsSourceAPI : Type := {
  news_source_registry : list (string * Source);
  categories : Source → list Category;
  _get_rss_url : Source → Category → string;
  parse_feed : Source → Raw → Category → Feed;
  entries : Feed → list News
}.

(** What iterating [futures.as_completed(future_map, timeout)] hands
    over to the loop: in [finished] the futures in the order in which
    the iterator yields them, each with what its [result()] then does
    (return the raw feed or raise what [get_raw_feed_object] raised),
    and after them either the end of the iteration or [TimeoutError]
    with its message.  The iterator yields the futures already done
    when it is called in the order of a set and the others as they are
    done; it looks at the clock before it collects the futures that
    have been done in the meantime, so a fetch that was over when the
    deadline passed can be among the futures it never hands over.  A
    future is named by the position at which it was submitted. *)
Record completion : Type := mkCompletion {
  finished : list (nat * result Raw);
  deadline_error : option string
}.

(** The thread pool, the network and the time the consumer takes
    decide which futures are handed over, in which order and how they
    ended; the collector is verified for every such behaviour. *)
Class ThreadPool : Type := {
  as_completed : positive → Z → list (Source * Category) → completion
}.

(** [as_completed] yields each given future at most once and no other;
    it ends normally exactly when it has yielded them all, and raises
    [TimeoutError] otherwise. *)
Definition valid_completion (n : nat) (c : completion) : Prop :=
  NoDup (finished c).*1 ∧
  Forall (λ i, i < n) (finished c).*1 ∧
  (deadline_error c = None ↔ length (finished c) = n).

Context {sources : NewsSourceAPI} {pool : ThreadPool}.

(** A generator body: the values yielded so far, how the body ended,
    and the world it leaves. *)
Definition Gen (A : Type) : Type := World → list Feed * result A * World.

Definition gen_ret {A} (a : A) : Gen A := λ w, ([], Return a, w).
Definition gen_raise {A} (e : exn) : Gen A := λ w, ([], Raise e, w).
Definition yield (v : Feed) : Gen unit := λ w, ([v], Return tt, w).
Definition lift {A} (m : M A) : Gen A := λ w,
  let '(r, w') := m w in ([], r, w').
Definition gen_bind {A B} (m : Gen A) (f : A → Gen B) : Gen B := λ w,
  match m w with
  | (ys, Return a, w') => let '(ys', r, w'') := f a w' in (ys ++ ys', r, w'')
  | (ys, Raise e, w') => (ys, Raise e, w')
  end.
Definition gen_try_except {A} (body : Gen A) (h : exn → option (Gen A)) : Gen A := λ w,
  match body w with
  | (ys, Return a, w') => (ys, Return a, w')
  | (ys, Raise e, w') =>
      match h e with
      | Some k => let '(ys', r, w'') := k w' in (ys ++ ys', r, w'')
      | None => (ys, Raise e, w')
      end
  end.

#[global] Instance Gen_bind : MBind Gen := λ A B f m, gen_bind m f.
#[global] Instance Gen_ret : MRet Gen := λ A a, gen_ret a.

(** [for future_obj in done_iter: body]. *)
Fixpoint for_done_iter (futures : list (nat * result Raw)) (stop : option string)
    (body : nat * result Raw → Gen unit) : Gen unit :=
  match futures with
  | f :: futures' => body f;; for_done_iter futures' stop body
  | [] =>
      match stop with
      | None => gen_ret tt
      | Some msg => gen_raise (TimeoutError msg)
      end
  end.

(** The tasks in the order the two nested loops submit them. *)
Definition submitted_tasks : list (Source * Category) :=
  '(class_name, news_src) ← news_source_registry;
  category ← categories news_src;
  [(news_src, category)].

(** The generator.  [future_map] maps the future of the i-th submitted
    task to that task.  [ThreadPoolExecutor] rejects a pool size that is
    not positive before anything is submitted, hence the type of
    [num_of_workers]; leaving the executor's [with] block waits for the
    fetches still running and makes no call on a logger. *)
Definition retrieve_registered_news_by_rss (num_of_workers : positive)
    (worker_timeout : Z) : Gen unit :=
  let future_map := submitted_tasks in
  lift (logging_info
          ("Retrieving " +:+ pretty (length future_map) +:+ " RSS feeds concurrently."));;
  let done_iter := as_completed num_of_workers worker_timeout future_map in
  gen_try_except
    (for_done_iter (finished done_iter) (deadline_error done_iter)
       (λ '(future_obj, outcome),
          match future_map !! future_obj with
          | None => gen_raise KeyError
          | Some (news_src, category) =>
              let url := _get_rss_url news_src category in
              match outcome with
              | Raise (HTTPError code) =>
                  lift (log_warning
                          ("HTTP Error " +:+ pretty code +:+ " for RSS feed '"
                             +:+ url +:+ "'") false)
              | Raise (URLError reason) =>
                  lift (log_warning
                          ("URL Error [" +:+ reason +:+ "] for RSS feed '"
                             +:+ url +:+ "'") false)
              | Raise e => gen_raise e
              | Return raw_feed => yield (parse_feed news_src raw_feed category)
              end
          end))
    (λ e, match e with
          | TimeoutError msg =>
              Some (lift (log_warning ("Timeout in news_collector: " +:+ msg) false))
          | _ => None
          end).

(** [tuple(entry for feed in feeds for entry in feed.entries)]: the
    generator is run to its end; an exception it raises is raised by
    the caller and the entries gathered so far are dropped. *)
Definition get_news_entries (num_of_workers : positive) (worker_timeout : Z)
    : M (list News) := λ w,
  let '(feeds, r, w') := retrieve_registered_news_by_rss num_of_workers worker_timeout w in
  match r with
  | Return _ => (Return (feed ← feeds; entries feed), w')
  | Raise e => (Raise e, w')
  end.

(** ** news_collector.py: the entry point *)

(** The collaborators of [main]: [scraping_rules_reader], [news_data],
    [local_news_parsers], and the two renderings [repr(news)] and
    ["%f" % seconds]. *)
Class PipelineAPI : Type := {
  read_rules_from_file : string → M (list Rule);
  set_rules_to_news_entries : list News → list Rule → M unit;
  update_local_news_sources_list : list News → string → M unit;
  get_target_news_by_scraping_rules : list News → list Rule → M (list News);
  news_repr : News → Heap → string;
  format_seconds : Z → string
}.

Context {pipeline : PipelineAPI}.

(** [timeit.default_timer()]. *)
Definition timer : M Z := gets clock.

(** The names module [scraper_utils] binds to strings. *)
Definition scraper_utils_strings : gmap string string :=
  {[ "DEFAULT_LOG_FORMAT" := DEFAULT_LOG_FORMAT ]}.

(** [scraper_utils.<name>] for a string constant; the other names the
    module binds are [logging], [re], its four functions and
    [NewsScrapperError]. *)
Definition scraper_utils_getattr (name : string) : M string :=
  match scraper_utils_strings !! name with
  | Some v => ret v
  | None => raise AttributeError
  end.

Definition print (line : string) : M unit := modify (add_stdout line).

(** [open(filename, 'w')] and [print(line, file=f)]. *)
Definition open_w (filename : string) : M unit :=
  modify (λ w, set_files (<[filename := []]> (files w)) w).
Definition print_to (filename line : string) : M unit :=
  modify (λ w, set_files (alter (λ ls, ls ++ [line]) filename (files w)) w).

Definition record_message (recorded total : nat) : string :=
  "Record " +:+ pretty recorded +:+ " news out of total " +:+ pretty total +:+ " news.".

(** Lines 104 to 135 of [main]: everything after the loggers are set up. *)
Definition main_pipeline (start_time : Z) : M pyvalue :=
  scraping_rules ← read_rules_from_file "test.rule";
  news_entries ← get_news_entries MAX_WORKERS RSS_WORKER_TIMEOUT;
  set_rules_to_news_entries news_entries scraping_rules;;
  logging_info "Updating 'local_news_sources.txt'...";;
  update_local_news_sources_list news_entries "local_news_sources.txt";;
  open_w "output.txt";;
  for_each news_entries (λ news,
    r ← gets (λ w, news_repr news (heap w)); print_to "output.txt" r);;
  target_news ← get_target_news_by_scraping_rules news_entries scraping_rules;
  save_data_into_database "my_focus_news" scraping_rules target_news;;
  logging_info (record_message (length target_news) (length news_entries));;
  for_each target_news (λ news,
    r ← gets (λ w, news_repr news (heap w)); print r);;
  now ← timer;
  logging_info ("Done. Elapsed time: " +:+ format_seconds (now - start_time) +:+ " seconds");;
  ret PyNone.

Definition main : M pyvalue :=
  start_time ← timer;
  setup_logger "error_log" LvWarning (Some "error.log") false DEFAULT_LOG_FORMAT;;
  log_format ← scraper_utils_getattr "default_log_format";
  basicConfig (Some LvDebug) (Some log_format);;
  main_pipeline start_time.

(** ** Vocabulary of the statements *)

(** A logger named [error_log] is registered. *)
Definition has_error_log (w : World) : Prop :=
  is_Some (loggerDict w !! "error_log").

Definition warning (msg : string) : log_record := mkLog "error_log" LvWarning msg.

(** The logging calls made between two worlds of one run. *)
Definition logged_since (w w' : World) : list log_record :=
  drop (length (log_calls w)) (log_calls w').

Definition contains (part whole : string) : Prop :=
  ∃ before after, whole = before +:+ part +:+ after.

Fixpoint string_forall (p : ascii → bool) (s : string) : bool :=
  match s with
  | EmptyString => true
  | String c s' => p c && string_forall p s'
  end.

(** The language of the pattern, with the text of its group. *)
Definition matches_base_url_pattern (link host : string) : Prop :=
  ∃ scheme rest,
    (scheme = "http://" ∨ scheme = "https://") ∧
    host ≠ EmptyString ∧ string_forall host_char host = true ∧
    link = scheme +:+ host +:+ "/" +:+ rest.

Definition add_logs (l : list log_record) (w : World) : World :=
  mkWorld (loggerDict w) (root_logger w) (NewsScrapperError_logger w)
          (log_calls w ++ l) (db_calls w)
          (storage w) (heap w) (stdout w) (files w) (clock w).

Definition add_db_calls (l : list (db_call Rule News)) (w : World) : World :=
  mkWorld (loggerDict w) (root_logger w) (NewsScrapperError_logger w)
          (log_calls w) (db_calls w ++ l)
          (storage w) (heap w) (stdout w) (files w) (clock w).

(** The storage calls made between two worlds of one run. *)
Definition called_since (w w' : World) : list (db_call Rule News) :=
  drop (length (db_calls w)) (db_calls w').

(** [out] is [s] without its leading characters that satisfy [p]. *)
Definition strips_leading (p : ascii → bool) (s out : string) : Prop :=
  ∃ dropped,
    s = dropped +:+ out ∧ string_forall p dropped = true ∧
    match out with
    | String c _ => p c = false
    | EmptyString => True
    end.

Definition w_or_dot (c : ascii) : bool :=
  bool_decide (c = "w"%char) || bool_decide (c = "."%char).

(** A link outside the pattern gives [None] and one logged warning. *)
Definition unmatched_link_is_logged (link : string) (w : World) : Prop :=
  ∃ w' msg,
    extract_domain_name_from_url link w = (Return None, w') ∧
    logged_since w w' = [warning msg].

(** [main] hands the two counts back as a pair. *)
Definition returns_the_counts (r : result pyvalue) : Prop :=
  ∃ total matched : nat,
    r = Return (PyPair (PyInt (Z.of_nat total)) (PyInt (Z.of_nat matched))).

(** The writes of one phase seen on the backend alone: how many calls
    were made, how the phase ended, the state it left. *)
Fixpoint phase {A} (write : A → DB → result unit * DB) (l : list A) (d : DB)
    : nat * result unit * DB :=
  match l with
  | [] => (0, Return tt, d)
  | x :: l' =>
      match write x d with
      | (Return _, d') => let '(k, r, d'') := phase write l' d' in (S k, r, d'')
      | (Raise e, d') => (1, Raise e, d')
      end
  end.

(** The exception the first failing write of the two phases raises. *)
Definition first_write_error (db_api : NewsDatabaseAPI)
    (scraping_rules : list Rule) (news_entries : list News) (d : DB) : option exn :=
  match phase (store_a_scraping_rule_to_db db_api) scraping_rules d with
  | (_, Raise e, _) => Some e
  | (_, Return _, d') =>
      match phase (store_a_rss_news_entry_to_db db_api) news_entries d' with
      | (_, Raise e, _) => Some e
      | (_, Return _, _) => None
      end
  end.

Definition is_write (c : db_call Rule News) : bool :=
  match c with
  | StoreRule _ _ | StoreNews _ _ => true
  | Acquire _ | Release _ => false
  end.

(** The two error classes the collector handles per task. *)
Definition handled (e : exn) : bool :=
  match e with
  | HTTPError _ | URLError _ => true
  | _ => false
  end.

Definition fetch_failed (o : result Raw) : bool :=
  match o with
  | Raise e => handled e
  | Return _ => false
  end.

(** A fetch that returned, or failed with one of the two classes. *)
Definition fetch_settled (o : result Raw) : Prop :=
  match o with
  | Return _ => True
  | Raise e => handled e = true
  end.

(** The feed a future handed over stands for when its fetch returned. *)
Definition yielded_by (f : nat * result Raw) : option Feed :=
  match submitted_tasks !! f.1, f.2 with
  | Some (news_src, category), Return raw_feed =>
      Some (parse_feed news_src raw_feed category)
  | _, _ => None
  end.

(** The warning a future handed over stands for when its fetch failed. *)
Definition warned_by (f : nat * result Raw) : option log_record :=
  match submitted_tasks !! f.1, f.2 with
  | Some (news_src, category), Raise (HTTPError code) =>
      Some (warning ("HTTP Error " +:+ pretty code +:+ " for RSS feed '"
                       +:+ _get_rss_url news_src category +:+ "'"))
  | Some (news_src, category), Raise (URLError reason) =>
      Some (warning ("URL Error [" +:+ reason +:+ "] for RSS feed '"
                       +:+ _get_rss_url news_src category +:+ "'"))
  | _, _ => None
  end.

(** How the loop over [done_iter] ends when no body raises. *)
Definition stop_result (stop : option string) : result unit :=
  match stop with
  | None => Return tt
  | Some msg => Raise (TimeoutError msg)
  end.

Definition retrieving_record : log_record :=
  mkLog "root" LvInfo
        ("Retrieving " +:+ pretty (length submitted_tasks) +:+ " RSS feeds concurrently.").

Definition deadline_warnings (stop : option string) : list log_record :=
  match stop with
  | None => []
  | Some msg => [warning ("Timeout in news_collector: " +:+ msg)]
  end.

Definition level_eqb (a b : level) : bool :=
  match a, b with
  | LvDebug, LvDebug | LvInfo, LvInfo | LvWarning, LvWarning | LvError, LvError => true
  | _, _ => false
  end.

Definition starts_with (p s : string) : bool :=
  if strip_prefix p s is Some _ then true else false.

Definition is_fetch_failure_warning (r : log_record) : bool :=
  bool_decide (rec_logger r = "error_log") && level_eqb (rec_level r) LvWarning
  && (starts_with "HTTP Error " (rec_msg r) || starts_with "URL Error [" (rec_msg r)).

Definition is_deadline_warning (r : log_record) : bool :=
  bool_decide (rec_logger r = "error_log") && level_eqb (rec_level r) LvWarning
  && starts_with "Timeout in news_collector: " (rec_msg r).

(** The futures handed over in a run whose fetch failed in a handled way. *)
Definition failed_fetches (c : completion) : nat :=
  length (List.filter (λ f : nat * result Raw, fetch_failed f.2) (finished c)).

(** *** The claims about the collector, at one run *)

(** The failed fetch of task [i] is caught and logged with the URL of
    the task, its exception [e] does not leave the generator, and the
    feed of every future handed over with a fetch that returned is
    yielded. *)
Definition failure_is_isolated (num_of_workers : positive) (worker_timeout : Z)
    (w : World) (i : nat) (e : exn) : Prop :=
  let c := as_completed num_of_workers worker_timeout submitted_tasks in
  let '(feeds, r, w') := retrieve_registered_news_by_rss num_of_workers worker_timeout w in
  (∃ news_src category msg,
     submitted_tasks !! i = Some (news_src, category) ∧
     warning msg ∈ logged_since w w' ∧
     contains (_get_rss_url news_src category) msg) ∧
  r ≠ Raise e ∧
  (∀ f feed, f ∈ finished c → yielded_by f = Some feed → feed ∈ feeds).

(** With [k] failed fetches among the submitted tasks, [N - k] feeds
    are yielded and [k] failure warnings are logged. *)
Definition every_task_is_accounted (num_of_workers : positive) (worker_timeout : Z)
    (w : World) (k : nat) : Prop :=
  let '(feeds, r, w') := retrieve_registered_news_by_rss num_of_workers worker_timeout w in
  length feeds = length submitted_tasks - k ∧
  length (List.filter is_fetch_failure_warning (logged_since w w')) = k.

(** The generator ends normally, has logged one deadline warning, and
    has yielded the feed of every future handed over with a fetch that
    returned, and nothing else. *)
Definition deadline_is_survived (num_of_workers : positive) (worker_timeout : Z)
    (w : World) : Prop :=
  let c := as_completed num_of_workers worker_timeout submitted_tasks in
  let '(feeds, r, w') := retrieve_registered_news_by_rss num_of_workers worker_timeout w in
  r = Return tt ∧
  length (List.filter is_deadline_warning (logged_since w w')) = 1 ∧
  feeds = omap yielded_by (finished c).


End Program.

(** ** The storage backend of the spec *)

Section SpecStore.

Context {Rule News : Type}.
Variable rule_id : Rule → Z.
Variable item_key : News → string.
Variable matched_rule_ids : News → list Z.

Record Store : Type := mkStore {
  rule_rows : list Rule;
  item_rows : list News;
  relation_rows : list (string * Z)
}.

(** Insert-or-replace by key: a row with the key of [x] is replaced
    where it stands, otherwise [x] becomes the last row. *)
Definition upsert {A K} `{EqDecision K} (key : A → K) (x : A) (rows : list A)
    : list A :=
  if decide (key x ∈ key <$> rows)
  then (λ y, if decide (key y = key x) then x else y) <$> rows
  else rows ++ [x].

Definition upsert_rule (r : Rule) (s : Store) : Store :=
  mkStore (upsert rule_id r (rule_rows s)) (item_rows s) (relation_rows s).

Definition upsert_item (n : News) (rule_ids : list Z) (s : Store) : Store :=
  mkStore (rule_rows s)
          (upsert item_key n (item_rows s))
          (foldl (λ rel i, upsert id (item_key n, i) rel) (relation_rows s) rule_ids).

(** What one upsert of [r] does to a row [x], what a sequence of
    upserts does to a table, and the row such a sequence leaves in the
    place of [x]. *)
Definition replace_by (r x : Rule) : Rule :=
  if decide (rule_id x = rule_id r) then r else x.

Definition upsert_all (rules rows : list Rule) : list Rule :=
  foldl (λ rows r, upsert rule_id r rows) rows rules.

Definition latest (rules : list Rule) (x : Rule) : Rule :=
  foldl (λ y r, replace_by r y) x rules.

(** Modelled from the spec: module [store_data_to_db] with class
    [NewsDatabaseAPI] is not under src/.  The spec gives the backend the
    two operations [upsert_rule(rule)] and
    [upsert_item(item, matched_rule_ids)]: "for each Rule in order,
    upsert it (idempotent by identifier ...)" and "for each filtered
    Item, upsert the item and its matched-rule relations". *)
Definition spec_storage : @StorageAPI Rule News Store := {|
  store_a_scraping_rule_to_db _ rule s := (Return tt, upsert_rule rule s);
  store_a_rss_news_entry_to_db _ news s :=
    (Return tt, upsert_item news (matched_rule_ids news) s)
|}.

End SpecStore.

(** ** scraper_utils.py: [read_json_from_file] *)

Section Json.

Context {Rule News DB Heap Json : Type}.
Context {env : LoggingEnv}.

(** What the function takes from outside the program.  [read_error]
    gives what [open(filename, 'r')] or [infile.read()] raises for a
    path that is no text file of [files] and is not simply missing: a
    directory, a file that may not be read, bytes that are not UTF-8.
    [json_loads] is [json.loads] on a text: the value, or the exception
    it raises, [JSONDecodeError] for a text that is not JSON and, say,
    [RecursionError] for one nested too deeply.  [empty_dict] is [{}]. *)
Class JsonAPI : Type := {
  read_error : string → option exn;
  json_loads : string → result Json;
  empty_dict : Json
}.

Context {json : JsonAPI}.

(** The text of a file kept as the lines printed to it. *)
Definition file_content (lines : list string) : string :=
  foldr (λ line text, line +:+ String "010"%char text) EmptyString lines.

(** [open(filename, 'r')] followed by [infile.read()]: a file that is
    not there raises [FileNotFoundError]. *)
Definition read_text (filename : string) : @M Rule News DB Heap string :=
  fs ← gets files;
  match fs !! filename with
  | Some lines => ret (file_content lines)
  | None =>
      match read_error filename with
      | Some e => raise e
      | None => raise (OtherError "FileNotFoundError")
      end
  end.

Definition read_json_from_file (filename : string) : @M Rule News DB Heap Json :=
  try_except
    (text ← read_text filename;
     match json_loads text with
     | Return value => ret value
     | Raise e => raise e
     end)
    (λ e, match e with
          | OtherError cls =>
              if decide (cls = "FileNotFoundError") then
                Some (log_warning ("File '" +:+ filename +:+ "' not found.") false;;
                      ret empty_dict)
              else if decide (cls = "JSONDecodeError") then
                let msg := "Fail to parse the content of file '" +:+ filename
                             +:+ "' as JSON. " in
                Some (log_warning msg false;; ret empty_dict)
              else None
          | _ => None
          end).

(** What the body of the [try] does before an [except] clause is
    chosen: the value [json.loads] gives for the text of the file, or
    the exception of [open], [read] or [json.loads]. *)
Definition read_outcome (filename : string) (w : @World Rule News DB Heap)
    : result Json :=
  match files w !! filename with
  | Some lines => json_loads (file_content lines)
  | None => Raise (default (OtherError "FileNotFoundError") (read_error filename))
  end.

(** The message of the warning that the [except] clause for the class
    of [e] logs, when there is such a clause. *)
Definition handler_message (filename : string) (e : exn) : option string :=
  match e with
  | OtherError cls =>
      if decide (cls = "FileNotFoundError")
      then Some ("File '" +:+ filename +:+ "' not found.")
      else if decide (cls = "JSONDecodeError")
      then Some ("Fail to parse the content of file '" +:+ filename +:+ "' as JSON. ")
      else None
  | _ => None
  end.

(** The class attribute [NewsScrapperError.logger] is either unset or
    the registered logger named [error_log]. *)
Definition class_logger_consistent (w : @World Rule News DB Heap) : Prop :=
  NewsScrapperError_logger w = None ∨
  (NewsScrapperError_logger w = Some "error_log" ∧ has_error_log w).

(** The dictionary once [getLogger] has been asked for a name that is
    not one of the root logger's. *)
Definition registered (name : string) (d : gmap string Logger) : gmap string Logger :=
  match d !! name with
  | Some _ => d
  | None => register_missing (parents name) (<[name := mkLogger None []]> d)
  end.

(** The files once [logging.FileHandler] has opened the log file, when
    one is given. *)
Definition files_opened (logfile : option string) (fs : gmap string (list string))
    : gmap string (list string) :=
  match logfile_given logfile with
  | Some f => if fs !! f is Some _ then fs else <[f := []]> fs
  | None => fs
  end.

(** The format and the log file of a call of [setup_logger] are
    accepted by the logging library. *)
Definition accepted (logfile : option string) (log_format : string) : Prop :=
  Formatter_error log_format = None ∧
  ∀ f, logfile_given logfile = Some f → FileHandler_error f = None.

(** The handlers one call of [setup_logger] adds. *)
Definition handlers_added (logfile : option string) (to_console : bool)
    (log_format : string) : list handler :=
  match logfile_given logfile with
  | Some f => [FileHandler f log_format]
  | None => []
  end ++ (if to_console then [StreamHandler log_format] else []).

End Json.

(** ** news_collector.py: the sequential collector *)

Section Sequential.

Context {Rule News DB Heap Source Category Raw Feed : Type}.
Context {sources : @NewsSourceAPI News Source Category Raw Feed}.

(** [news_src.get_feed_object(category)]: fetches and parses in one
    call; it returns the feed or raises.  What it writes to a log is
    its own. *)
Class FeedAPI : Type := {
  get_feed_object : Source → Category → result Feed
}.

Context {feeds : FeedAPI}.

(** [for x in l: body] inside a generator. *)
Fixpoint gen_for_each {A} (l : list A) (body : A → @Gen Rule News DB Heap Feed unit)
    : @Gen Rule News DB Heap Feed unit :=
  match l with
  | [] => gen_ret tt
  | x :: l' => body x;; gen_for_each l' body
  end.

Definition retrieve_registered_news_by_rss_sequentially
    : @Gen Rule News DB Heap Feed unit :=
  gen_for_each news_source_registry (λ '(class_name, news_src),
    gen_for_each (categories news_src) (λ category,
      match get_feed_object news_src category with
      | Raise (HTTPError _) | Raise (URLError _) => gen_ret tt
      | Raise e => gen_raise e
      | Return feed_obj => yield feed_obj
      end)).

(** The feed of a task when its fetch returned. *)
Definition fetched (task : Source * Category) : option Feed :=
  match get_feed_object task.1 task.2 with
  | Return feed_obj => Some feed_obj
  | Raise _ => None
  end.

(** A task whose fetch returned or failed in one of the two handled
    ways. *)
Definition task_settled (task : Source * Category) : Prop :=
  match get_feed_object task.1 task.2 with
  | Return _ => True
  | Raise e => handled e = true
  end.

End Sequential.

(** ** remove_all_data_from_db.py *)

Module remove_all_data_from_db.
Section Cleanup.

Context {Rule News DB Heap : Type}.

(** The database named by [settings.DATABASE_CONFIG], the table prefix
    [NewsDatabaseAPI(conn)] takes by default, and the two methods
    [main] calls, each acting on the state of the backend. *)
Class CleanupAPI : Type := {
  DATABASE_CONFIG : string;
  default_table_prefix : string;
  remove_all_rules_and_relations : NewsDatabaseAPI → DB → result unit * DB;
  reset_news_data : NewsDatabaseAPI → DB → result unit * DB
}.

Context {cleanup : CleanupAPI}.

Definition main : @M Rule News DB Heap unit :=
  with_as (PostgreSqlDB_enter DATABASE_CONFIG) PostgreSqlDB_exit (λ conn,
    let db_api := mkNewsDatabaseAPI conn default_table_prefix in
    on_storage (remove_all_rules_and_relations db_api);;
    on_storage (reset_news_data db_api)).

End Cleanup.
End remove_all_data_from_db.

(** ** A small instance *)

(** Two sources with three feeds between them, a rule as an identifier
    with a keyword, a news entry as its link. *)

Definition sample_sources : @NewsSourceAPI string string string string (list string) := {|
  news_source_registry := [("Wired", "wired.com"); ("Bbc", "bbc.co.uk")];
  categories source :=
    if decide (source = "wired.com") then ["business"; "science"] else ["world"];
  _get_rss_url source category := "https://" +:+ source +:+ "/rss/" +:+ category;
  parse_feed source raw_feed category := [raw_feed];
  entries feed := feed
|}.

(** All three fetches finish: the third first, then the first with
    HTTP 404, then the second. *)
Definition sample_pool_all_finish : @ThreadPool string string string := {|
  as_completed _ _ _ :=
    mkCompletion
      [(2, Return "bbc.co.uk/news/1"); (0, Raise (HTTPError 404%Z));
       (1, Return "wired.com/story/2")]
      None
|}.

(** Only the second fetch finishes before the deadline. *)
Definition sample_pool_deadline : @ThreadPool string string string := {|
  as_completed _ _ _ :=
    mkCompletion [(1, Return "wired.com/story/2")]
                 (Some "2 (of 3) futures unfinished")
|}.

(** Fetches that take their time: the second finishes first, the other
    two only after sixty seconds. *)
Definition sample_pool_timed : @ThreadPool string string string := {|
  as_completed _ worker_timeout _ :=
    if decide (worker_timeout < 60)%Z
    then mkCompletion [(1, Return "wired.com/story/2")]
                      (Some "2 (of 3) futures unfinished")
    else mkCompletion
           [(1, Return "wired.com/story/2"); (2, Return "bbc.co.uk/news/1");
            (0, Raise (HTTPError 404%Z))]
           None
|}.




(** The first fetch to finish ends in an exception of another class. *)
Definition sample_pool_reset : @ThreadPool string string string := {|
  as_completed _ _ _ :=
    mkCompletion
      [(2, Raise (OtherError "ConnectionResetError")); (0, Raise (URLError "refused"));
       (1, Return "wired.com/story/2")]
      None
|}.

Definition sample_pool_reset_deadline : @ThreadPool string string string := {|
  as_completed _ _ _ :=
    mkCompletion [(2, Raise (OtherError "ConnectionResetError"))]
                 (Some "2 (of 3) futures unfinished")
|}.

(** A backend that accepts every write, and one that refuses the rule
    with identifier 2. *)
Definition sample_storage : @StorageAPI (Z * string) string unit := {|
  store_a_scraping_rule_to_db _ _ d := (Return tt, d);
  store_a_rss_news_entry_to_db _ _ d := (Return tt, d)
|}.

Definition sample_storage_refusing : @StorageAPI (Z * string) string unit := {|
  store_a_scraping_rule_to_db _ rule d :=
    if decide (rule.1 = 2%Z) then (Raise (OtherError "IntegrityError"), d)
    else (Return tt, d);
  store_a_rss_news_entry_to_db _ _ d := (Return tt, d)
|}.

Definition sample_rules : list (Z * string) := [(1%Z, "breaking"); (2%Z, "election")].

Definition sample_pipeline : @PipelineAPI (Z * string) string unit unit := {|
  read_rules_from_file _ := ret sample_rules;
  set_rules_to_news_entries _ _ := ret tt;
  update_local_news_sources_list _ _ := ret tt;
  get_target_news_by_scraping_rules news_entries _ := ret (take 1 news_entries);
  news_repr news _ := news;
  format_seconds seconds := pretty seconds +:+ ".000000"
|}.

(** An environment in which the formatter rejects the format ['100%']
    and the root directory cannot be opened as a log file. *)
Definition sample_env : LoggingEnv := {|
  Formatter_error fmt :=
    if decide (fmt = "100%") then Some (OtherError "ValueError") else None;
  FileHandler_error filename :=
    if decide (filename = "/") then Some (OtherError "IsADirectoryError") else None;
  DEFAULT_LOG_FORMAT_accepted := eq_refl;
  error_log_opens := eq_refl
|}.

(** The interpreter before any logger is set up, and after
    [setup_logger('error_log', ...)] as [main] calls it. *)
Definition sample_fresh_world : @World (Z * string) string unit unit :=
  mkWorld ∅ (mkLogger (Some LvWarning) []) None [] [] tt tt [] ∅ 0%Z.

Definition sample_logged_world : @World (Z * string) string unit unit :=
  (setup_logger (env := sample_env) "error_log" LvWarning (Some "error.log") false
                DEFAULT_LOG_FORMAT sample_fresh_world).2.

(** The backend of the spec with one rule row already stored. *)
Definition sample_store_world : @World (Z * string) string (@Store (Z * string) string) unit :=
  mkWorld ∅ (mkLogger (Some LvWarning) []) None [] []
          (mkStore [(1%Z, "flood")] [] []) tt [] ∅ 0%Z.

Definition sample_spec_storage : @StorageAPI (Z * string) string (@Store (Z * string) string) :=
  spec_storage fst id (λ _, [1%Z]).

(** More of the small instance: JSON values, files, the fetches of the
    sequential collector, a registry without categories. *)

Inductive sample_json : Type :=
  | JsonDict (items : list (string * Z))
  | JsonNumber (n : Z).

Definition newline : string := String "010"%char EmptyString.

(** [json.loads] on the texts the instance needs, and a path that is a
    directory. *)
Definition sample_json_api : @JsonAPI sample_json := {|
  read_error filename :=
    if decide (filename = ".") then Some (OtherError "IsADirectoryError") else None;
  json_loads text :=
    if decide (text = "{}" +:+ newline) then Return (JsonDict [])
    else if decide (text = "7" +:+ newline) then Return (JsonNumber 7)
    else Raise (OtherError "JSONDecodeError");
  empty_dict := JsonDict []
|}.

(** Two files, one that parses and one that does not. *)
Definition sample_files_world : @World (Z * string) string unit unit :=
  set_files {[ "seven.json" := ["7"]; "broken.json" := ["{"] ]} sample_logged_world.

Definition sample_files_fresh_world : @World (Z * string) string unit unit :=
  set_files {[ "seven.json" := ["7"]; "broken.json" := ["{"] ]} sample_fresh_world.

(** [get_feed_object] in agreement with the fetches of
    [sample_pool_all_finish], and one whose second fetch ends in an
    exception of another class. *)
Definition sample_feeds : @FeedAPI string string (list string) := {|
  get_feed_object source category :=
    if decide (category = "business") then Raise (HTTPError 404%Z)
    else if decide (category = "science") then Return ["wired.com/story/2"]
    else Return ["bbc.co.uk/news/1"]
|}.


(** A registry whose one source has no category, and a pool with
    nothing to deliver. *)
Definition sample_sources_idle : @NewsSourceAPI string string string string (list string) := {|
  news_source_registry := [("Wired", "wired.com")];
  categories source := [];
  _get_rss_url source category := "https://" +:+ source +:+ "/rss/" +:+ category;
  parse_feed source raw_feed category := [raw_feed];
  entries feed := feed
|}.

Definition sample_pool_idle : @ThreadPool string string string := {|
  as_completed _ _ _ := mkCompletion [] None
|}.

(** The second fetch to finish raised [TimeoutError] itself. *)
Definition sample_pool_fetch_timeout : @ThreadPool string string string := {|
  as_completed _ _ _ :=
    mkCompletion
      [(2, Return "bbc.co.uk/news/1"); (1, Raise (TimeoutError "timed out"));
       (0, Return "wired.com/story/1")]
      None
|}.

Definition sample_cleanup : @remove_all_data_from_db.CleanupAPI unit := {|
  remove_all_data_from_db.DATABASE_CONFIG := "my_focus_news";
  remove_all_data_from_db.default_table_prefix := "shownews_";
  remove_all_data_from_db.remove_all_rules_and_relations _ d := (Return tt, d);
  remove_all_data_from_db.reset_news_data _ d := (Return tt, d)
|}.

(** * Properties *)

Ltac unfold_monad :=
  unfold mbind, mret, M_bind, M_ret, Gen_bind, Gen_ret,
         bind, ret, raise, gets, modify, try_except,
         gen_bind, gen_ret, gen_raise, gen_try_except, lift, yield in *.

#[local] Arguments String.append !_ _ / : simpl nomatch.

Section UtilsProperties.

Context {Rule News DB Heap : Type} {env : LoggingEnv}.
Local Abbreviation World := (@World Rule News DB Heap).

Implicit Types (w : World) (msg link host : string).

(** *** Logging *)

Lemma not_root_name name : is_root_name name = false → name ≠ "root".
Proof. intros H ->. done. Qed.

Lemma getLogger_error_log w :
  has_error_log w → getLogger "error_log" w = (Return "error_log", w).
Proof.
  intros [l Hl]. unfold getLogger. change (is_root_name "error_log") with false.
  unfold_monad. cbv beta iota. by rewrite Hl.
Qed.

Lemma register_missing_lookup names (d : gmap string Logger) k :
  register_missing names d !! k
  = match d !! k with
    | Some l => Some l
    | None => if bool_decide (k ∈ names) then Some (mkLogger None []) else None
    end.
Proof.
  unfold register_missing. revert d.
  induction names as [|p names IH]; intros d; simpl.
  - by destruct (d !! k).
  - rewrite IH. destruct (d !! p) as [lp|] eqn:Hp.
    + destruct (d !! k) as [l|] eqn:Hk; [done|].
      assert (k ≠ p) by congruence.
      destruct (bool_decide_reflect (k ∈ names)) as [Hin|Hin].
      * rewrite bool_decide_eq_true_2; [done|]. by right.
      * rewrite bool_decide_eq_false_2; [done|].
        intros [?|?]%elem_of_cons; done.
    + destruct (decide (k = p)) as [->|Hne].
      * rewrite lookup_insert_eq, Hp. rewrite bool_decide_eq_true_2; [done|]. by left.
      * rewrite lookup_insert_ne by done. destruct (d !! k) as [l|]; [done|].
        destruct (bool_decide_reflect (k ∈ names)) as [Hin|Hin].
        -- rewrite bool_decide_eq_true_2; [done|]. by right.
        -- rewrite bool_decide_eq_false_2; [done|].
           intros [?|?]%elem_of_cons; done.
Qed.

Lemma registered_lookup name (d : gmap string Logger) :
  registered name d !! name = Some (default (mkLogger None []) (d !! name)).
Proof.
  unfold registered. destruct (d !! name) as [l|] eqn:Hl; simpl; [done|].
  by rewrite register_missing_lookup, lookup_insert_eq.
Qed.

Lemma registered_lookup_ne name (d : gmap string Logger) other :
  other ≠ name →
  registered name d !! other
  = match d !! other, d !! name with
    | Some l, _ => Some l
    | None, None =>
        if bool_decide (other ∈ parents name) then Some (mkLogger None []) else None
    | None, Some _ => None
    end.
Proof.
  intros Hne. unfold registered. destruct (d !! name) as [l|] eqn:Hl.
  - by destruct (d !! other).
  - by rewrite register_missing_lookup, lookup_insert_ne.
Qed.

Lemma registered_error_log (d : gmap string Logger) :
  d !! "error_log" = None →
  registered "error_log" d = <["error_log" := mkLogger None []]> d.
Proof. intros Hd. unfold registered. by rewrite Hd. Qed.

Lemma getLogger_runs name w :
  is_root_name name = false →
  getLogger name w = (Return name, set_loggerDict (registered name (loggerDict w)) w).
Proof.
  intros Hname. unfold getLogger, registered. rewrite Hname.
  unfold_monad. cbv beta iota.
  destruct (loggerDict w !! name); [|done]. by destruct w.
Qed.

(** [setup_logger] for a name that is not the root logger's, with a
    format and a log file the library accepts. *)
Lemma setup_logger_runs_to name lv logfile to_console log_format w :
  is_root_name name = false →
  accepted logfile log_format →
  setup_logger name lv logfile to_console log_format w
  = (Return name,
     set_files (files_opened logfile (files w))
       (set_loggerDict
          (<[name := mkLogger (Some lv)
                       (default [] (lg_handlers <$> loggerDict w !! name)
                          ++ handlers_added logfile to_console log_format)]>
             (registered name (loggerDict w))) w)).
Proof.
  intros Hname [Hfmt Hfile]. pose proof (not_root_name _ Hname) as Hroot.
  unfold setup_logger, Formatter. rewrite Hfmt.
  unfold mbind, M_bind. unfold bind at 1. unfold ret at 1. cbv beta iota.
  unfold bind at 1. rewrite (getLogger_runs _ _ Hname).
  unfold alter_logger. destruct (decide (name = "root")) as [?|_]; [done|].
  unfold handlers_added, files_opened, FileHandler_init.
  destruct (logfile_given logfile) as [f|] eqn:Hf.
  - rewrite (Hfile f eq_refl). unfold_monad. simpl.
    destruct (files w !! f), to_console; simpl; f_equal;
      unfold set_files, set_loggerDict; simpl; f_equal;
      apply map_eq; intros i; destruct (decide (name = i)) as [<-|Hne];
      rewrite ?lookup_alter_eq, ?lookup_insert_eq, ?lookup_alter_ne, ?lookup_insert_ne,
        ?lookup_alter_eq, ?lookup_insert_eq, ?registered_lookup by done;
      try done; simpl; destruct (loggerDict w !! name); simpl;
      rewrite <- ?app_assoc, ?app_nil_r; done.
  - unfold_monad. simpl.
    destruct to_console; simpl; f_equal;
      unfold set_files, set_loggerDict; simpl; f_equal;
      apply map_eq; intros i; destruct (decide (name = i)) as [<-|Hne];
      rewrite ?lookup_alter_eq, ?lookup_insert_eq, ?lookup_alter_ne, ?lookup_insert_ne,
        ?lookup_alter_eq, ?lookup_insert_eq, ?registered_lookup by done;
      try done; simpl; destruct (loggerDict w !! name); simpl;
      rewrite <- ?app_assoc, ?app_nil_r; done.
Qed.

Lemma accepted_error_log : accepted (Some "error.log") DEFAULT_LOG_FORMAT.
Proof.
  split; [apply DEFAULT_LOG_FORMAT_accepted|].
  intros f [= <-]. apply error_log_opens.
Qed.

Lemma log_warning_registered w msg is_error :
  has_error_log w →
  log_warning msg is_error w
  = (Return tt,
     add_log (mkLog "error_log" (if is_error then LvError else LvWarning) msg) w).
Proof.
  intros Hlog. unfold log_warning.
  change (d ← gets loggerDict; ?k) with (bind (gets loggerDict) (λ d, k)).
  unfold mbind at 1, M_bind, bind at 1, gets at 1.
  destruct (decide (is_Some (loggerDict w !! "error_log"))) as [_|Hn]; [|done].
  destruct is_error; unfold mbind, M_bind, bind;
    rewrite (getLogger_error_log w Hlog); reflexivity.
Qed.

Lemma has_error_log_add_log w r : has_error_log w → has_error_log (add_log r w).
Proof. done. Qed.

Lemma log_warning_unregistered w msg is_error :
  ¬ has_error_log w →
  ∃ w', log_warning msg is_error w
        = (Raise (NewsScrapperError "Please set up 'error_log' logger first."), w').
Proof.
  intros Hlog. unfold log_warning.
  unfold mbind at 1, M_bind, bind at 1, gets at 1.
  destruct (decide (is_Some (loggerDict w !! "error_log"))) as [Hy|_]; [done|].
  unfold raise_NewsScrapperError, NewsScrapperError_init.
  unfold mbind, M_bind. unfold bind at 1. unfold bind at 1. unfold gets at 1.
  cbv beta iota.
  destruct (NewsScrapperError_logger w) as [l|] eqn:Hcls.
  - unfold_monad. simpl. rewrite Hcls. eauto.
  - unfold bind at 1. unfold setup_error_logger.
    unfold mbind, M_bind. unfold bind at 1. unfold gets at 1. cbv beta iota.
    destruct (decide (is_Some (loggerDict w !! "error_log"))) as [Hy|_]; [done|].
    unfold bind at 1.
    rewrite (setup_logger_runs_to "error_log" _ _ _ _ _ eq_refl accepted_error_log).
    unfold_monad. simpl. eauto.
Qed.

(** *** The pattern and [lstrip] *)

Lemma strip_prefix_app p s : strip_prefix p (p +:+ s) = Some s.
Proof. induction p as [|a p IH]; simpl; [done|]. by rewrite decide_True. Qed.

Lemma strip_prefix_Some p s r : strip_prefix p s = Some r → s = p +:+ r.
Proof.
  revert s. induction p as [|a p IH]; intros s; simpl.
  - by intros [= ->].
  - destruct s as [|b s]; [done|]. case_decide as Hab; [|done].
    intros Hr. subst b. by rewrite (IH _ Hr).
Qed.

Lemma span_host_app h t :
  string_forall host_char h = true →
  match t with String c _ => host_char c = false | EmptyString => True end →
  span_host (h +:+ t) = (h, t).
Proof.
  intros Hh Ht. induction h as [|c h IH]; simpl in *.
  - destruct t as [|c t]; [done|]. simpl. by rewrite Ht.
  - apply andb_prop in Hh as [Hc Hh]. rewrite Hc, (IH Hh). done.
Qed.

Lemma span_host_spec s h t :
  span_host s = (h, t) → s = h +:+ t ∧ string_forall host_char h = true.
Proof.
  revert h t. induction s as [|c s IH]; intros h t; simpl.
  - intros [= <- <-]. done.
  - destruct (host_char c) eqn:Hc.
    + destruct (span_host s) as [h' t'] eqn:E. intros [= <- <-].
      destruct (IH _ _ eq_refl) as [-> Hh]. simpl. by rewrite Hc, Hh.
    + intros [= <- <-]. done.
Qed.

Lemma base_url_pattern_match_complete link host :
  matches_base_url_pattern link host → base_url_pattern_match link = Some host.
Proof.
  intros (scheme & rest & Hs & Hne & Hh & ->).
  assert (span_host (host +:+ "/" +:+ rest) = (host, "/" +:+ rest)) as Hspan.
  { by apply span_host_app. }
  unfold base_url_pattern_match. simpl in Hspan.
  destruct Hs as [-> | ->]; simpl; rewrite Hspan; by destruct host.
Qed.

Lemma base_url_pattern_match_sound link host :
  base_url_pattern_match link = Some host → matches_base_url_pattern link host.
Proof.
  unfold base_url_pattern_match. intros H.
  apply bind_Some in H as (r & E1 & H). cbv zeta in H.
  apply bind_Some in H as (r2 & E2 & H).
  apply strip_prefix_Some in E1 as ->.
  apply strip_prefix_Some in E2.
  destruct (span_host r2) as [h t] eqn:E3.
  apply span_host_spec in E3 as [-> Hh].
  destruct h as [|c h]; [done|]. destruct t as [|c' t]; [done|].
  destruct (decide (c' = "/"%char)) as [->|Hc']; [|done].
  injection H as <-.
  destruct (strip_prefix "s" r) as [r3|] eqn:E4.
  - change (default r (Some r3)) with r3 in E2.
    apply strip_prefix_Some in E4 as ->. subst r3.
    exists "https://", t. split_and!; [by right|done|done|done].
  - change (default r None) with r in E2. subst r.
    exists "http://", t. split_and!; [by left|done|done|done].
Qed.

Lemma base_url_pattern_no_match link :
  base_url_pattern_match link = None ↔ ∀ host, ¬ matches_base_url_pattern link host.
Proof.
  split.
  - intros Hn host Hm. apply base_url_pattern_match_complete in Hm. congruence.
  - intros Hn. destruct (base_url_pattern_match link) as [host|] eqn:E; [|done].
    destruct (Hn host). by apply base_url_pattern_match_sound.
Qed.

Lemma char_in_www c : char_in c "www." = w_or_dot c.
Proof.
  unfold w_or_dot. simpl.
  destruct (bool_decide (c = "w"%char)), (bool_decide (c = "."%char)); done.
Qed.

Lemma lstrip_strips chars s :
  strips_leading (λ c, char_in c chars) s (lstrip chars s).
Proof.
  induction s as [|c s (dropped & Hs & Hd & Hout)]; simpl.
  - by exists EmptyString.
  - destruct (char_in c chars) eqn:Hc.
    + exists (String c dropped). simpl. rewrite Hc, Hd. by rewrite <- Hs.
    + by exists EmptyString.
Qed.

Lemma strips_leading_ext p q s out :
  (∀ c, p c = q c) → strips_leading p s out → strips_leading q s out.
Proof.
  intros Hpq (dropped & Hs & Hd & Hout). exists dropped. split_and!; [done| |].
  - clear -Hd Hpq. induction dropped as [|c d IH]; [done|].
    simpl in *. apply andb_prop in Hd as [Hc Hd]. by rewrite <- Hpq, Hc, IH.
  - destruct out; [done|]. by rewrite <- Hpq.
Qed.

Lemma lstrip_www_strips s : strips_leading w_or_dot s (lstrip "www." s).
Proof. eapply strips_leading_ext, lstrip_strips. apply char_in_www. Qed.

Lemma logged_since_add_log w r : logged_since w (add_log r w) = [r].
Proof. unfold logged_since. simpl. by rewrite drop_app_length. Qed.

(** C10 (amended): for a link that matches the pattern with [host] as
    its group, [extract_domain_name_from_url] returns [host] without its
    leading characters from the set of [w] and [.] (a strip by
    character set, not by prefix) and changes nothing.  For a link
    outside the pattern it logs one warning and returns [None] when
    [error_log] is registered, and raises [NewsScrapperError] when it is
    not. *)
Theorem extract_domain_name_from_url_spec link w :
  (∀ host, matches_base_url_pattern link host →
     ∃ out, extract_domain_name_from_url link w = (Return (Some out), w) ∧
            strips_leading w_or_dot host out) ∧
  ((∀ host, ¬ matches_base_url_pattern link host) →
     (has_error_log w →
        extract_domain_name_from_url link w
        = (Return None,
           add_log (warning ("News link [" +:+ link
                               +:+ "] does not match base_url_pattern.")) w) ∧
        unmatched_link_is_logged link w) ∧
     (¬ has_error_log w →
        ∃ w', extract_domain_name_from_url link w
              = (Raise (NewsScrapperError "Please set up 'error_log' logger first."),
                 w'))).
Proof.
  split.
  - intros host Hm. apply base_url_pattern_match_complete in Hm.
    exists (lstrip "www." host). split; [|apply lstrip_www_strips].
    unfold extract_domain_name_from_url, try_except. rewrite Hm. reflexivity.
  - intros Hn. apply base_url_pattern_no_match in Hn.
    unfold unmatched_link_is_logged, extract_domain_name_from_url, try_except.
    rewrite Hn. unfold raise, mbind, M_bind, bind. cbv beta iota. split.
    + intros Hlog. rewrite log_warning_registered by done.
      split; [reflexivity|]. eexists _, _. split; [reflexivity|].
      apply logged_since_add_log.
    + intros Hlog.
      match goal with
      | |- context [log_warning ?m false w] =>
          destruct (log_warning_unregistered w m false Hlog) as [w' ->]
      end. eauto.
Qed.

End UtilsProperties.

Section PersistenceProperties.

Context {Rule News DB Heap : Type} {storage_api : @StorageAPI Rule News DB}.
Local Abbreviation World := (@World Rule News DB Heap).

Implicit Types (w : World) (d : DB) (rules : list Rule) (news : list News).

Lemma add_db_calls_nil w : add_db_calls [] w = w.
Proof. destruct w. unfold add_db_calls. simpl. by rewrite app_nil_r. Qed.

Lemma add_db_calls_app l1 l2 w :
  add_db_calls l2 (add_db_calls l1 w) = add_db_calls (l1 ++ l2) w.
Proof. unfold add_db_calls. simpl. by rewrite app_assoc. Qed.

Lemma phase_calls {A} (write : A → DB → result unit * DB) l d :
  (phase write l d).1.1 ≤ length l.
Proof.
  revert d. induction l as [|x l IH]; intros d; simpl; [lia|].
  destruct (write x d) as [[[]|e] d']; simpl; [|lia].
  specialize (IH d'). destruct (phase write l d') as [[k r] d'']. simpl in *. lia.
Qed.

Lemma phase_Return {A} (write : A → DB → result unit * DB) l d k u d' :
  phase write l d = (k, Return u, d') → k = length l.
Proof.
  revert d k. induction l as [|x l IH]; intros d k; simpl.
  - by intros [= <- _ _].
  - destruct (write x d) as [[[]|e] d1]; [|done].
    destruct (phase write l d1) as [[k1 r1] d2] eqn:E. intros [= <- -> ->].
    by rewrite (IH _ _ E).
Qed.

Lemma phase_total {A} (write : A → DB → result unit * DB) (f : A → DB → DB) l d :
  (∀ x d, write x d = (Return tt, f x d)) →
  phase write l d = (length l, Return tt, foldl (λ d x, f x d) d l).
Proof.
  intros Hw. revert d. induction l as [|x l IH]; intros d; simpl; [done|].
  by rewrite Hw, IH.
Qed.

(** A loop of recorded writes makes the calls of [phase] and ends as it
    does. *)
Lemma for_each_phase {A} (write : A → DB → result unit * DB)
    (call : A → db_call Rule News) (l : list A) w :
  for_each l (λ x, bind (modify (add_db_call (call x))) (λ _, on_storage (write x))) w
  = let '(k, r, d) := phase write l (storage w) in
    (r, set_storage d (add_db_calls (call <$> take k l) w)).
Proof.
  revert w. induction l as [|x l IH]; intros w; simpl.
  - unfold_monad. rewrite add_db_calls_nil. by destruct w.
  - unfold_monad. unfold on_storage. simpl.
    destruct (write x (storage w)) as [[[]|e] d1]; simpl.
    + rewrite IH. simpl.
      destruct (phase write l d1) as [[k r] d2]. simpl.
      f_equal. unfold set_storage, add_db_calls, add_db_call. simpl.
      by rewrite <- app_assoc.
    + done.
Qed.

(** The whole phase in one equation. *)
Lemma save_data_into_database_runs name rules news w :
  let db_api := mkNewsDatabaseAPI (mkConnection name) "shownews_" in
  save_data_into_database name rules news w
  = let '(k1, r1, d1) := phase (store_a_scraping_rule_to_db db_api) rules (storage w) in
    match r1 with
    | Raise e =>
        (Raise e,
         set_storage d1
           (add_db_calls (Acquire name :: (StoreRule "shownews_" <$> take k1 rules)
                            ++ [Release (Some e)]) w))
    | Return _ =>
        let '(k2, r2, d2) := phase (store_a_rss_news_entry_to_db db_api) news d1 in
        (r2,
         set_storage d2
           (add_db_calls (Acquire name :: (StoreRule "shownews_" <$> rules)
                            ++ (StoreNews "shownews_" <$> take k2 news)
                            ++ [Release (exc_of r2)]) w))
    end.
Proof.
  intros db_api. unfold save_data_into_database, with_as.
  unfold PostgreSqlDB_enter, PostgreSqlDB_exit.
  unfold call_store_a_scraping_rule_to_db, call_store_a_rss_news_entry_to_db.
  unfold mbind, M_bind. unfold bind at 1 2 3. unfold modify at 1, ret at 1. simpl.
  fold db_api.
  rewrite (for_each_phase (store_a_scraping_rule_to_db db_api) (StoreRule "shownews_")).
  simpl.
  destruct (phase (store_a_scraping_rule_to_db db_api) rules (storage w))
    as [[k1 r1] d1] eqn:E1.
  destruct r1 as [[]|e].
  - apply phase_Return in E1 as ->. rewrite firstn_all.
    rewrite (for_each_phase (store_a_rss_news_entry_to_db db_api) (StoreNews "shownews_")).
    simpl.
    destruct (phase (store_a_rss_news_entry_to_db db_api) news d1) as [[k2 r2] d2].
    destruct r2 as [[]|e]; unfold_monad; simpl; f_equal;
      unfold set_storage, add_db_calls, add_db_call; simpl;
      f_equal; rewrite <- !app_assoc; done.
  - unfold_monad; simpl; f_equal.
    unfold set_storage, add_db_calls, add_db_call; simpl.
    f_equal. rewrite <- !app_assoc. done.
Qed.

Lemma called_since_add w d l :
  called_since w (set_storage d (add_db_calls l w)) = l.
Proof. unfold called_since. simpl. by rewrite drop_app_length. Qed.

Lemma two_phase_lookup (p : string) (xs : list Rule) (ys : list News)
    (tail : list (db_call Rule News)) (i : nat) (database : string) :
  Forall (λ c, is_write c = false) tail →
  let calls := Acquire database :: (StoreRule p <$> xs) ++ (StoreNews p <$> ys) ++ tail in
  (∀ q n, calls !! i = Some (StoreNews q n) → length xs < i) ∧
  (∀ q r, calls !! i = Some (StoreRule q r) → i ≤ length xs).
Proof.
  intros Htail calls. unfold calls. destruct i as [|i]; simpl; [done|].
  destruct (decide (i < length xs)) as [Hlt|Hge].
  - rewrite lookup_app_l by (by rewrite length_fmap).
    rewrite list_lookup_fmap. split; intros q y Hy; [|lia].
    destruct (xs !! i); done.
  - rewrite lookup_app_r by (rewrite length_fmap; lia).
    split; intros q y Hy; [lia|].
    apply list_elem_of_lookup_2, elem_of_app in Hy as [Hy|Hy].
    + apply list_elem_of_fmap in Hy as (? & ? & ?). done.
    + rewrite Forall_forall in Htail. by apply Htail in Hy.
Qed.

(** C1: in every run of the persistence phase, an item write is preceded
    by the writes of all the rules of the given sequence, in their
    order, and followed by no rule write: no call of
    [store_a_rss_news_entry_to_db] comes before a call of
    [store_a_scraping_rule_to_db]. *)
Theorem rules_are_stored_before_news name rules news w i p n :
  let calls := called_since w (save_data_into_database name rules news w).2 in
  calls !! i = Some (StoreNews p n) →
  (∀ j p' r, calls !! j = Some (StoreRule p' r) → j < i) ∧
  (∃ rest, calls = Acquire name :: (StoreRule "shownews_" <$> rules) ++ rest) ∧
  length rules < i.
Proof.
  intros calls. unfold calls. rewrite save_data_into_database_runs.
  destruct (phase _ rules (storage w)) as [[k1 r1] d1].
  destruct r1 as [[]|e].
  - destruct (phase _ news d1) as [[k2 r2] d2]. simpl.
    rewrite called_since_add. intros Hi.
    assert (Forall (λ c : db_call Rule News, is_write c = false) [Release (exc_of r2)])
      as Htail by (by constructor).
    split_and!.
    + intros j p' r Hj.
      apply (two_phase_lookup _ _ _ _ i name Htail) in Hi.
      apply (two_phase_lookup _ _ _ _ j name Htail) in Hj. lia.
    + eauto.
    + by apply (two_phase_lookup _ _ _ _ i name Htail) in Hi.
  - simpl. rewrite called_since_add. intros Hi. exfalso.
    apply list_elem_of_lookup_2 in Hi.
    apply elem_of_cons in Hi as [?|Hi]; [done|].
    apply elem_of_app in Hi as [Hi|Hi].
    + apply list_elem_of_fmap in Hi as (? & ? & ?). done.
    + apply list_elem_of_singleton in Hi. done.
Qed.

(** C5: the connection acquired on entry is released on every way out of
    the persistence phase.  The calls of a run are one [Acquire], then
    writes only, then one [Release], which is handed the exception of
    the first failing write, if any; that exception is what the phase
    raises, and the phase returns when no write fails. *)
Theorem connection_is_released_on_every_exit name rules news w :
  let db_api := mkNewsDatabaseAPI (mkConnection name) "shownews_" in
  let exc := first_write_error db_api rules news (storage w) in
  let '(r, w') := save_data_into_database name rules news w in
  (∃ writes,
     called_since w w' = [Acquire name] ++ writes ++ [Release exc] ∧
     forallb is_write writes = true) ∧
  r = match exc with
      | None => Return tt
      | Some e => Raise e
      end.
Proof.
  intros db_api exc. unfold exc, first_write_error.
  rewrite save_data_into_database_runs. fold db_api.
  destruct (phase _ rules (storage w)) as [[k1 r1] d1].
  destruct r1 as [[]|e].
  - destruct (phase _ news d1) as [[k2 r2] d2].
    rewrite called_since_add. split.
    + exists ((StoreRule "shownews_" <$> rules) ++ (StoreNews "shownews_" <$> take k2 news)).
      split.
      * simpl. rewrite <- app_assoc. by destruct r2 as [[]|?].
      * rewrite forallb_app. apply andb_true_intro.
        split; apply forallb_forall; intros c Hc; apply in_map_iff in Hc as (? & <- & _); done.
    + by destruct r2 as [[]|?].
  - rewrite called_since_add. split; [|done].
    exists (StoreRule "shownews_" <$> take k1 rules). split; [done|].
    apply forallb_forall; intros c Hc; apply in_map_iff in Hc as (? & <- & _); done.
Qed.

End PersistenceProperties.

Section StoreProperties.

Context {Rule News Heap : Type}.
Variable rule_id : Rule → Z.
Variable item_key : News → string.
Variable matched_rule_ids : News → list Z.

Local Abbreviation Store := (@Store Rule News).
Local Abbreviation World := (@World Rule News Store Heap).
Local Abbreviation api := (spec_storage rule_id item_key matched_rule_ids).

Implicit Types (rows : list Rule) (rules : list Rule) (r x : Rule).

Lemma replace_by_id r x : rule_id (replace_by rule_id r x) = rule_id x.
Proof. unfold replace_by. by case_decide. Qed.

Lemma upsert_present r rows :
  rule_id r ∈ rule_id <$> rows → upsert rule_id r rows = replace_by rule_id r <$> rows.
Proof. intros Hin. unfold upsert. by rewrite decide_True. Qed.

Lemma upsert_ids_present r rows :
  rule_id r ∈ rule_id <$> rows → rule_id <$> upsert rule_id r rows = rule_id <$> rows.
Proof.
  intros Hin. rewrite upsert_present by done. rewrite <- list_fmap_compose.
  apply list_fmap_ext. intros ? x _. apply replace_by_id.
Qed.

Lemma upsert_ids r rows y :
  y ∈ rule_id <$> upsert rule_id r rows ↔ y = rule_id r ∨ y ∈ rule_id <$> rows.
Proof.
  destruct (decide (rule_id r ∈ rule_id <$> rows)) as [Hin|Hout].
  - rewrite upsert_ids_present by done. split; [by right|].
    intros [->|?]; done.
  - unfold upsert. rewrite decide_False by done.
    rewrite fmap_app, elem_of_app. simpl. rewrite list_elem_of_singleton.
    split; intros [?|?]; auto.
Qed.

Lemma upsert_NoDup r rows :
  NoDup (rule_id <$> rows) → NoDup (rule_id <$> upsert rule_id r rows).
Proof.
  intros Hnd. destruct (decide (rule_id r ∈ rule_id <$> rows)) as [Hin|Hout].
  - by rewrite upsert_ids_present.
  - unfold upsert. rewrite decide_False by done. rewrite fmap_app.
    apply NoDup_app. split_and!; [done| |apply NoDup_singleton].
    intros y Hy Hy'. apply list_elem_of_singleton in Hy'. by subst.
Qed.

Lemma upsert_all_NoDup rules rows :
  NoDup (rule_id <$> rows) → NoDup (rule_id <$> upsert_all rule_id rules rows).
Proof.
  revert rows. induction rules as [|r rules IH]; intros rows Hnd; [done|].
  change (upsert_all rule_id (r :: rules) rows)
    with (upsert_all rule_id rules (upsert rule_id r rows)).
  apply IH. by apply upsert_NoDup.
Qed.

Lemma upsert_all_snoc rules r rows :
  upsert_all rule_id (rules ++ [r]) rows = upsert rule_id r (upsert_all rule_id rules rows).
Proof. unfold upsert_all. by rewrite foldl_app. Qed.

Lemma latest_id rules x : rule_id (latest rule_id rules x) = rule_id x.
Proof.
  unfold latest. revert x.
  induction rules as [|r rules IH]; intros x; [done|].
  simpl. by rewrite IH, replace_by_id.
Qed.

(** Once every identifier of the sequence has a row, the upserts only
    replace rows where they stand. *)
Lemma upsert_all_present rules rows :
  (∀ r, r ∈ rules → rule_id r ∈ rule_id <$> rows) →
  upsert_all rule_id rules rows = latest rule_id rules <$> rows.
Proof.
  revert rows. induction rules as [|r rules IH]; intros rows Hin.
  - change (upsert_all rule_id [] rows) with rows.
    rewrite <- (list_fmap_id rows) at 1. by apply list_fmap_ext.
  - change (upsert_all rule_id (r :: rules) rows)
      with (upsert_all rule_id rules (upsert rule_id r rows)).
    rewrite upsert_present by (apply Hin; left). rewrite IH.
    + rewrite <- list_fmap_compose. by apply list_fmap_ext.
    + intros r' Hr'. rewrite <- list_fmap_compose.
      erewrite list_fmap_ext; [apply Hin; by right|].
      intros ? x _. apply replace_by_id.
Qed.

Lemma upsert_all_ids rules rows r :
  r ∈ rules → rule_id r ∈ rule_id <$> upsert_all rule_id rules rows.
Proof.
  revert r. induction rules as [|r' rules IH] using rev_ind; intros r Hr.
  - by apply elem_of_nil in Hr.
  - rewrite upsert_all_snoc. apply upsert_ids.
    apply elem_of_app in Hr as [Hr|Hr]; [right; by apply IH|left].
    apply list_elem_of_singleton in Hr. by subst.
Qed.

Lemma upsert_elem r rows x :
  x ∈ upsert rule_id r rows → x = r ∨ (x ∈ rows ∧ rule_id x ≠ rule_id r).
Proof.
  unfold upsert. case_decide as Hin.
  - intros Hx. apply list_elem_of_fmap in Hx as (y & -> & Hy).
    unfold replace_by. case_decide; [by left|by right].
  - intros Hx. apply elem_of_app in Hx as [Hx|Hx].
    + right. split; [done|]. intros Heq. apply Hin. rewrite <- Heq.
      apply list_elem_of_fmap. eauto.
    + left. by apply list_elem_of_singleton in Hx.
Qed.

(** Every row the upserts leave is already the latest rule_id for its
    identifier. *)
Lemma upsert_all_settled rules rows x :
  x ∈ upsert_all rule_id rules rows → latest rule_id rules x = x.
Proof.
  revert x. induction rules as [|r rules IH] using rev_ind; intros x Hx; [done|].
  rewrite upsert_all_snoc in Hx. unfold latest. rewrite foldl_app. simpl.
  fold (latest rule_id rules x). apply upsert_elem in Hx as [->|[Hx Hne]].
  - unfold replace_by. by rewrite latest_id, decide_True.
  - rewrite (IH _ Hx). unfold replace_by. by rewrite decide_False.
Qed.

Lemma upsert_all_idempotent rules rows :
  upsert_all rule_id rules (upsert_all rule_id rules rows) = upsert_all rule_id rules rows.
Proof.
  rewrite upsert_all_present by (intros r Hr; by apply upsert_all_ids).
  rewrite <- (list_fmap_id (upsert_all rule_id rules rows)) at 2.
  apply list_fmap_ext. intros ? x Hx. apply upsert_all_settled with rows.
  by apply list_elem_of_lookup_2 in Hx.
Qed.

Lemma rule_rows_upsert_rules rules (s : Store) :
  rule_rows (foldl (λ s r, upsert_rule rule_id r s) s rules)
  = upsert_all rule_id rules (rule_rows s).
Proof.
  revert s. induction rules as [|r rules IH]; intros s; [done|].
  simpl. by rewrite IH.
Qed.

Lemma rule_rows_upsert_items (news : list News) (s : Store) :
  rule_rows (foldl (λ s n, upsert_item item_key n (matched_rule_ids n) s) s news)
  = rule_rows s.
Proof.
  revert s. induction news as [|n news IH]; intros s; [done|].
  simpl. by rewrite IH.
Qed.

Lemma save_rule_rows name rules (news : list News) (w : World) :
  rule_rows (storage (save_data_into_database (storage_api := api) name rules news w).2)
  = upsert_all rule_id rules (rule_rows (storage w)).
Proof.
  rewrite save_data_into_database_runs.
  rewrite (phase_total _ (upsert_rule rule_id)) by done.
  rewrite (phase_total _ (λ n, upsert_item item_key n (matched_rule_ids n))) by done.
  simpl. by rewrite rule_rows_upsert_items, rule_rows_upsert_rules.
Qed.

(** C7: on the backend of the spec, running the persistence phase a
    second time with the same rule sequence leaves the rule rows as the
    first run left them, whatever items either run stores, and a run
    on a table without two rows of one identifier leaves none. *)
Theorem rule_phase_is_idempotent name rules (news1 news2 : list News) (w : World) :
  let run news w := (save_data_into_database (storage_api := api) name rules news w).2 in
  rule_rows (storage (run news2 (run news1 w))) = rule_rows (storage (run news1 w)) ∧
  (NoDup (rule_id <$> rule_rows (storage w)) →
   NoDup (rule_id <$> rule_rows (storage (run news1 w))) ∧
   NoDup (rule_id <$> rule_rows (storage (run news2 (run news1 w))))).
Proof.
  intros run. unfold run. rewrite !save_rule_rows, upsert_all_idempotent.
  split; [done|]. intros Hnd. split; by apply upsert_all_NoDup.
Qed.

End StoreProperties.

Section CollectorProperties.

Context {Rule News DB Heap Source Category Raw Feed : Type}.
Context {env : LoggingEnv}.
Context {sources : @NewsSourceAPI News Source Category Raw Feed}.
Context {pool : @ThreadPool Source Category Raw}.
Local Abbreviation World := (@World Rule News DB Heap).

Implicit Types (w : World) (f : nat * result Raw) (futures : list (nat * result Raw)).
Implicit Types (c : @completion Raw).

(** The body of the loop over [done_iter]. *)
Local Abbreviation loop_body :=
  (λ '(future_obj, outcome),
     match submitted_tasks !! future_obj with
     | None => gen_raise KeyError
     | Some (news_src, category) =>
         let url := _get_rss_url news_src category in
         match outcome with
         | Raise (HTTPError code) =>
             lift (log_warning
                     ("HTTP Error " +:+ pretty code +:+ " for RSS feed '"
                        +:+ url +:+ "'") false)
         | Raise (URLError reason) =>
             lift (log_warning
                     ("URL Error [" +:+ reason +:+ "] for RSS feed '"
                        +:+ url +:+ "'") false)
         | Raise e => gen_raise e
         | Return raw_feed => yield (parse_feed news_src raw_feed category)
         end
     end).

Lemma add_logs_nil w : add_logs [] w = w.
Proof. destruct w. unfold add_logs. simpl. by rewrite app_nil_r. Qed.

Lemma add_logs_app l1 l2 w : add_logs l2 (add_logs l1 w) = add_logs (l1 ++ l2) w.
Proof. unfold add_logs. simpl. by rewrite app_assoc. Qed.

Lemma add_log_add_logs r w : add_log r w = add_logs [r] w.
Proof. done. Qed.

Lemma logged_since_add_logs w l : logged_since w (add_logs l w) = l.
Proof. unfold logged_since. simpl. by rewrite drop_app_length. Qed.

(** With [error_log] registered, a future whose fetch returned or
    failed in one of the two handled ways is turned into one feed or
    one warning, and the loop goes on. *)
Lemma loop_body_settled w f :
  has_error_log w → is_Some (yielded_by f) ∨ is_Some (warned_by f) →
  loop_body f w
  = (option_list (yielded_by f), Return tt, add_logs (option_list (warned_by f)) w).
Proof.
  intros Hlog Hf. destruct f as [i o]. unfold yielded_by, warned_by in *. simpl in *.
  destruct (submitted_tasks !! i) as [[news_src category]|].
  2:{ destruct Hf as [[? ?]|[? ?]]; done. }
  destruct o as [raw|e].
  - unfold yield. simpl. by rewrite add_logs_nil.
  - destruct e; try (destruct Hf as [[? ?]|[? ?]]; done);
      unfold lift; rewrite log_warning_registered by done; done.
Qed.

Lemma for_done_iter_settled (body : nat * result Raw → Gen unit) futures stop w :
  (∀ w f, has_error_log w → is_Some (yielded_by f) ∨ is_Some (warned_by f) →
          body f w
          = (option_list (yielded_by f), Return tt,
             add_logs (option_list (warned_by f)) w)) →
  has_error_log w →
  Forall (λ f, is_Some (yielded_by f) ∨ is_Some (warned_by f)) futures →
  for_done_iter futures stop body w
  = (omap yielded_by futures, stop_result stop, add_logs (omap warned_by futures) w).
Proof.
  intros Hbody Hlog Hall. revert w Hlog.
  induction Hall as [|f futures Hf Hall IH]; intros w Hlog.
  - simpl. rewrite add_logs_nil. by destruct stop.
  - cbn [for_done_iter]. unfold mbind, Gen_bind, gen_bind.
    rewrite (Hbody w f Hlog Hf).
    rewrite IH by done. rewrite add_logs_app. cbn [omap list_omap].
    destruct (yielded_by f), (warned_by f); done.
Qed.

Lemma basicConfig_runs lv w :
  ∃ w', basicConfig lv None w = (Return tt, w') ∧
        loggerDict w' = loggerDict w ∧ log_calls w' = log_calls w.
Proof.
  unfold basicConfig. unfold_monad. simpl.
  destruct (lg_handlers (root_logger w)); eauto.
Qed.

Lemma logging_info_runs msg w :
  ∃ w', logging_info msg w = (Return tt, add_logs [mkLog "root" LvInfo msg] w') ∧
        loggerDict w' = loggerDict w ∧ log_calls w' = log_calls w.
Proof.
  destruct (basicConfig_runs None w) as (w' & E & Hd & Hl).
  exists w'. split; [|done].
  unfold logging_info, logger_call. unfold mbind, M_bind, bind. by rewrite E.
Qed.

(** The collector in one equation, for a run in which [error_log] is
    registered and the fetch of every future handed over returned or
    failed in one of the two handled ways. *)
Lemma retrieve_registered_news_by_rss_settled W T w :
  let c := as_completed W T submitted_tasks in
  has_error_log w →
  Forall (λ f, is_Some (yielded_by f) ∨ is_Some (warned_by f)) (finished c) →
  ∃ w0, loggerDict w0 = loggerDict w ∧ log_calls w0 = log_calls w ∧
    retrieve_registered_news_by_rss W T w
    = (omap yielded_by (finished c), Return tt,
       add_logs (retrieving_record :: omap warned_by (finished c)
                   ++ deadline_warnings (deadline_error c)) w0).
Proof.
  intros c Hlog Hall.
  destruct (logging_info_runs
              ("Retrieving " +:+ pretty (length submitted_tasks)
                 +:+ " RSS feeds concurrently.") w) as (w0 & E & Hd & Hl).
  exists w0. split_and!; [done..|].
  unfold retrieve_registered_news_by_rss.
  unfold mbind, Gen_bind. unfold gen_bind at 1. unfold lift at 1.
  rewrite E. clear E. fold retrieving_record. fold c. unfold gen_try_except.
  assert (has_error_log (add_logs [retrieving_record] w0)) as Hlog0.
  { unfold has_error_log. simpl. by rewrite Hd. }
  rewrite (for_done_iter_settled _ _ _ _ loop_body_settled Hlog0 Hall).
  rewrite add_logs_app.
  destruct (deadline_error c) as [msg|]; cbn [stop_result deadline_warnings].
  - unfold lift. rewrite log_warning_registered by (unfold has_error_log; simpl; by rewrite Hd).
    rewrite add_log_add_logs, add_logs_app, app_nil_r, <- app_assoc. reflexivity.
  - rewrite app_nil_r. reflexivity.
Qed.

(** A future [as_completed] may hand over, with a settled fetch,
    stands for a feed or for a warning, never for both. *)
Lemma settled_future n c f :
  n = length submitted_tasks → valid_completion n c →
  f ∈ finished c → fetch_settled f.2 →
  (is_Some (yielded_by f) ∧ warned_by f = None ∧ fetch_failed f.2 = false) ∨
  (yielded_by f = None ∧ is_Some (warned_by f) ∧ fetch_failed f.2 = true).
Proof.
  intros -> (_ & Hlt & _) Hf Hs.
  rewrite Forall_forall in Hlt.
  assert (f.1 < length submitted_tasks) as Hi.
  { apply Hlt, list_elem_of_fmap. eauto. }
  apply lookup_lt_is_Some in Hi as [[news_src category] Hi].
  destruct f as [i o]. unfold yielded_by, warned_by. simpl in *. rewrite Hi.
  destruct o as [raw|[]]; simpl in *; try done; eauto.
Qed.

Lemma settled_futures n c :
  n = length submitted_tasks → valid_completion n c →
  Forall (λ f, fetch_settled f.2) (finished c) →
  Forall (λ f, is_Some (yielded_by f) ∨ is_Some (warned_by f)) (finished c).
Proof.
  intros Hn Hv Hs. rewrite Forall_forall in *. intros f Hf.
  destruct (settled_future n c f Hn Hv Hf (Hs f Hf)) as [(? & _)|(_ & ? & _)]; eauto.
Qed.

Lemma length_omap_yielded futures :
  Forall (λ f, (is_Some (yielded_by f) ∧ warned_by f = None ∧ fetch_failed f.2 = false) ∨
               (yielded_by f = None ∧ is_Some (warned_by f) ∧ fetch_failed f.2 = true))
         futures →
  length (omap yielded_by futures) + length (omap warned_by futures) = length futures ∧
  length (omap warned_by futures)
  = length (List.filter (λ f : nat * result Raw, fetch_failed f.2) futures).
Proof.
  induction 1 as [|f futures Hf _ [IH1 IH2]]; [done|].
  cbn [omap list_omap List.filter].
  destruct Hf as [([y Hy] & Hw & Hff)|(Hy & [r Hr] & Hff)]; rewrite ?Hy, ?Hw, ?Hr, Hff;
    simpl; lia.
Qed.

Lemma warned_by_is_failure f r :
  warned_by f = Some r → is_fetch_failure_warning r = true ∧ is_deadline_warning r = false.
Proof.
  unfold warned_by. destruct (submitted_tasks !! f.1) as [[news_src category]|]; [|done].
  destruct f.2 as [raw|[]]; try done; intros [= <-]; split; reflexivity.
Qed.

Lemma filter_omap_all {A B} (p : B → bool) (g : A → option B) (l : list A) :
  (∀ x y, g x = Some y → p y = true) → List.filter p (omap g l) = omap g l.
Proof.
  intros Hp. induction l as [|x l IH]; [done|]. cbn [omap list_omap].
  destruct (g x) as [y|] eqn:E; [|done]. simpl. by rewrite (Hp x y E), IH.
Qed.

Lemma filter_omap_none {A B} (p : B → bool) (g : A → option B) (l : list A) :
  (∀ x y, g x = Some y → p y = false) → List.filter p (omap g l) = [].
Proof.
  intros Hp. induction l as [|x l IH]; [done|]. cbn [omap list_omap].
  destruct (g x) as [y|] eqn:E; [|done]. simpl. by rewrite (Hp x y E), IH.
Qed.

Lemma logged_since_collector w w0 l :
  log_calls w0 = log_calls w → logged_since w (add_logs l w0) = l.
Proof. intros Hl. unfold logged_since. simpl. by rewrite Hl, drop_app_length. Qed.

Lemma failure_warnings_logged futures stop :
  List.filter is_fetch_failure_warning
    (retrieving_record :: omap warned_by futures ++ deadline_warnings stop)
  = omap warned_by futures.
Proof.
  cbn [List.filter]. change (is_fetch_failure_warning retrieving_record) with false.
  cbv iota. rewrite List.filter_app.
  rewrite filter_omap_all by (intros ? ? ?; by eapply warned_by_is_failure).
  destruct stop; simpl; by rewrite app_nil_r.
Qed.

Lemma deadline_warnings_logged futures stop :
  List.filter is_deadline_warning
    (retrieving_record :: omap warned_by futures ++ deadline_warnings stop)
  = deadline_warnings stop.
Proof.
  cbn [List.filter]. change (is_deadline_warning retrieving_record) with false.
  cbv iota. rewrite List.filter_app.
  rewrite filter_omap_none by (intros ? ? ?; by eapply warned_by_is_failure).
  by destruct stop.
Qed.

Lemma contains_middle a part b : contains part (a +:+ part +:+ b).
Proof. by exists a, b. Qed.

Lemma string_app_assoc (a b c : string) : (a +:+ b) +:+ c = a +:+ b +:+ c.
Proof. induction a as [|x a IH]; simpl; [done|]. by rewrite IH. Qed.

Lemma warned_by_contains_url f r news_src category :
  submitted_tasks !! f.1 = Some (news_src, category) →
  warned_by f = Some r →
  ∃ msg, r = warning msg ∧ contains (_get_rss_url news_src category) msg.
Proof.
  unfold warned_by. intros ->.
  destruct f.2 as [raw|[]]; try done; intros [= <-]; eexists; (split; [done|]).
  - exists ("HTTP Error " +:+ pretty code +:+ " for RSS feed '"), "'".
    by rewrite !string_app_assoc.
  - exists ("URL Error [" +:+ reason +:+ "] for RSS feed '"), "'".
    by rewrite !string_app_assoc.
Qed.

Lemma NoDup_fst_unique {A B} (l : list (A * B)) x y1 y2 :
  NoDup l.*1 → (x, y1) ∈ l → (x, y2) ∈ l → y1 = y2.
Proof.
  induction l as [|[a b] l IH]; simpl; intros Hnd H1 H2.
  - by apply elem_of_nil in H1.
  - apply NoDup_cons in Hnd as [Ha Hnd].
    apply elem_of_cons in H1 as [H1|H1]; apply elem_of_cons in H2 as [H2|H2].
    + congruence.
    + injection H1 as -> ->. destruct Ha. apply list_elem_of_fmap. by exists (a, y2).
    + injection H2 as -> ->. destruct Ha. apply list_elem_of_fmap. by exists (a, y1).
    + auto.
Qed.

(** When the iteration ends normally the future of every submitted
    task has been handed over. *)
Lemma every_task_finished c i :
  valid_completion (length submitted_tasks) c → deadline_error c = None →
  i < length submitted_tasks → ∃ o, (i, o) ∈ finished c.
Proof.
  intros (Hnd & Hlt & Hall) Hstop Hi.
  assert ((finished c).*1 ≡ₚ seq 0 (length submitted_tasks)) as Hperm.
  { apply submseteq_length_Permutation.
    - apply NoDup_submseteq; [done|]. intros x Hx.
      rewrite Forall_forall in Hlt. apply elem_of_seq. specialize (Hlt x Hx). lia.
    - rewrite length_seq, length_fmap. apply Hall in Hstop. lia. }
  assert (i ∈ (finished c).*1) as Hin.
  { rewrite Hperm. apply elem_of_seq. lia. }
  apply list_elem_of_fmap in Hin as ([j o] & -> & Hin). eauto.
Qed.

(** *** Without the logger *)

Lemma loop_body_returned w f feed :
  yielded_by f = Some feed → loop_body f w = ([feed], Return tt, w).
Proof.
  destruct f as [i o]. unfold yielded_by. simpl.
  destruct (submitted_tasks !! i) as [[news_src category]|]; [|done].
  destruct o as [raw|e]; [|done]. by intros [= <-].
Qed.

Lemma loop_body_unregistered w f :
  ¬ has_error_log w → is_Some (warned_by f) →
  ∃ w', loop_body f w
        = ([], Raise (NewsScrapperError "Please set up 'error_log' logger first."), w').
Proof.
  intros Hlog [r Hr]. destruct f as [i o]. unfold warned_by in Hr. simpl in *.
  destruct (submitted_tasks !! i) as [[news_src category]|]; [|done].
  destruct o as [raw|[]]; try done; unfold lift;
    match goal with
    | |- context [log_warning ?m false w] =>
        destruct (log_warning_unregistered w m false Hlog) as [w' ->]
    end; eauto.
Qed.

Lemma for_done_iter_returned (body : nat * result Raw → Gen unit) oks rest stop w :
  (∀ w f feed, yielded_by f = Some feed → body f w = ([feed], Return tt, w)) →
  Forall (λ f, is_Some (yielded_by f)) oks →
  for_done_iter (oks ++ rest) stop body w
  = let '(feeds, r, w') := for_done_iter rest stop body w in
    (omap yielded_by oks ++ feeds, r, w').
Proof.
  intros Hbody Hoks. induction Hoks as [|f oks [feed Hf] _ IH].
  - simpl. by destruct (for_done_iter rest stop body w) as [[? ?] ?].
  - cbn [app for_done_iter omap list_omap]. unfold mbind, Gen_bind, gen_bind.
    rewrite (Hbody w f feed Hf), IH, Hf.
    by destruct (for_done_iter rest stop body w) as [[? ?] ?].
Qed.

Lemma for_done_iter_raises (body : nat * result Raw → Gen (Feed := Feed) unit)
    f rest stop w e w' :
  body f w = ([], Raise e, w') →
  for_done_iter (f :: rest) stop body w = ([], Raise e, w').
Proof.
  intros E. cbn [for_done_iter]. unfold mbind, Gen_bind, gen_bind. by rewrite E.
Qed.

Lemma retrieve_registered_news_by_rss_unregistered W T w oks rest :
  ¬ has_error_log w →
  finished (as_completed W T submitted_tasks) = oks ++ rest →
  Forall (λ f, is_Some (yielded_by f)) oks →
  match rest with
  | f :: _ => is_Some (warned_by f)
  | [] => is_Some (deadline_error (as_completed W T submitted_tasks))
  end →
  ∃ w', retrieve_registered_news_by_rss W T w
        = (omap yielded_by oks,
           Raise (NewsScrapperError "Please set up 'error_log' logger first."), w').
Proof.
  intros Hlog Hfin Hoks Hrest.
  destruct (logging_info_runs
              ("Retrieving " +:+ pretty (length submitted_tasks)
                 +:+ " RSS feeds concurrently.") w) as (w0 & E & Hd & Hl).
  unfold retrieve_registered_news_by_rss.
  unfold mbind, Gen_bind. unfold gen_bind at 1. unfold lift at 1.
  rewrite E. clear E. unfold gen_try_except. rewrite Hfin.
  rewrite (for_done_iter_returned _ _ _ _ _ loop_body_returned Hoks).
  set (w1 := add_logs _ w0).
  assert (¬ has_error_log w1) as Hlog1.
  { unfold has_error_log, w1. simpl. by rewrite Hd. }
  destruct rest as [|f rest].
  - destruct Hrest as [m ->]. cbn [for_done_iter]. unfold gen_raise, lift.
    destruct (log_warning_unregistered w1 ("Timeout in news_collector: " +:+ m)
                false Hlog1) as [w' ->].
    exists w'. by rewrite !app_nil_r.
  - destruct (loop_body_unregistered w1 f Hlog1 Hrest) as [w' E].
    rewrite (for_done_iter_raises _ f rest _ w1 _ w' E).
    exists w'. by rewrite app_nil_r.
Qed.

(** The first future of a settled delivery that stands for a warning. *)
Lemma first_warned futures f0 :
  Forall (λ f, is_Some (yielded_by f) ∨ is_Some (warned_by f)) futures →
  f0 ∈ futures → is_Some (warned_by f0) →
  ∃ oks f rest,
    futures = oks ++ f :: rest ∧
    Forall (λ f, is_Some (yielded_by f)) oks ∧ is_Some (warned_by f).
Proof.
  intros Hall. induction Hall as [|g futures Hg Hall IH]; intros Hin Hw.
  - by apply elem_of_nil in Hin.
  - destruct (warned_by g) as [r|] eqn:Hr.
    + exists [], g, futures. split_and!; [done|constructor|]. rewrite Hr. eauto.
    + apply elem_of_cons in Hin as [->|Hin].
      { rewrite Hr in Hw. by destruct Hw. }
      destruct (IH Hin Hw) as (oks & f & rest & -> & Hoks & Hf).
      exists (g :: oks), f, rest. split_and!; [done| |done].
      constructor; [|done]. destruct Hg as [?|[? ?]]; [done|congruence].
Qed.

(** C2 (amended): take a run in which [as_completed] hands over the
    future of task [i] with a fetch that raised, and hands over no
    future whose fetch ended in an exception other than [HTTPError]
    and [URLError], so that the fetch of task [i] raised one of the
    two.  When [error_log] is registered, the
    failure is caught on its own: a warning with the feed URL of the
    task is logged, the exception does not leave the generator, which
    ends normally, and the feed of every future handed over with a
    fetch that returned is yielded.  When [error_log] is not
    registered, the generator ends with [NewsScrapperError]. *)
Theorem fetch_failure_is_isolated W T w i e :
  let c := as_completed W T submitted_tasks in
  valid_completion (length submitted_tasks) c →
  Forall (λ f, fetch_settled f.2) (finished c) →
  (i, Raise e) ∈ finished c →
  (has_error_log w →
   failure_is_isolated W T w i e ∧
   (retrieve_registered_news_by_rss W T w).1.2 = Return tt) ∧
  (¬ has_error_log w →
   (retrieve_registered_news_by_rss W T w).1.2
   = Raise (NewsScrapperError "Please set up 'error_log' logger first.")).
Proof.
  intros c Hv Hs Hin.
  pose proof (settled_futures _ c eq_refl Hv Hs) as Hall.
  assert (is_Some (warned_by (i, Raise e))) as Hwarned.
  { rewrite Forall_forall in Hs.
    destruct (settled_future _ c _ eq_refl Hv Hin (Hs _ Hin))
      as [([feed Hy] & _)|(_ & Hr & _)]; [|done].
    unfold yielded_by in Hy. simpl in Hy.
    by destruct (submitted_tasks !! i) as [[news_src category]|]. }
  split.
  - intros Hlog.
    destruct (retrieve_registered_news_by_rss_settled W T w Hlog Hall)
      as (w0 & Hd & Hl & E).
    unfold failure_is_isolated. rewrite E. fold c.
    rewrite (logged_since_collector _ _ _ Hl).
    split_and!; try done.
    + destruct Hwarned as [r Hr].
      assert (is_Some (submitted_tasks !! i)) as [[news_src category] Hi].
      { unfold warned_by in Hr. simpl in Hr. by destruct (submitted_tasks !! i). }
      destruct (warned_by_contains_url (i, Raise e) r news_src category Hi Hr)
        as (msg & -> & Hmsg).
      exists news_src, category, msg. split_and!; [done| |done].
      apply elem_of_cons. right. apply elem_of_app. left.
      apply list_elem_of_omap. eauto.
    + intros f feed Hf Hy. apply list_elem_of_omap. eauto.
  - intros Hlog.
    destruct (first_warned (finished c) (i, Raise e) Hall Hin Hwarned)
      as (oks & f & rest & Hfin & Hoks & Hf).
    destruct (retrieve_registered_news_by_rss_unregistered W T w oks (f :: rest)
                Hlog Hfin Hoks Hf) as [w' ->].
    done.
Qed.

(** C3 (amended): when [error_log] is registered and [as_completed]
    hands over the futures of all [N] submitted tasks, so that its
    iteration ends without [TimeoutError], [k] of them with a fetch
    that raised [HTTPError] or [URLError] and the others with a fetch
    that returned, then whatever the pool size the collector yields
    [N - k] feeds and logs [k] failure warnings: the feeds are those of
    the returned fetches and the warnings those of the failed ones, in
    the order in which the futures are handed over, and every task
    stands for exactly one of the two. *)
Theorem every_finished_task_is_accounted W T w :
  let c := as_completed W T submitted_tasks in
  let n := length submitted_tasks in
  has_error_log w →
  valid_completion n c →
  deadline_error c = None →
  Forall (λ f, fetch_settled f.2) (finished c) →
  every_task_is_accounted W T w (failed_fetches c) ∧
  (let '(feeds, r, w') := retrieve_registered_news_by_rss W T w in
   r = Return tt ∧
   feeds = omap yielded_by (finished c) ∧
   List.filter is_fetch_failure_warning (logged_since w w') = omap warned_by (finished c)) ∧
  (∀ i, i < n →
     ∃ o, (i, o) ∈ finished c ∧
          (∀ o', (i, o') ∈ finished c → o' = o) ∧
          ((is_Some (yielded_by (i, o)) ∧ warned_by (i, o) = None) ∨
           (yielded_by (i, o) = None ∧ is_Some (warned_by (i, o))))).
Proof.
  intros c n Hlog Hv Hstop Hs.
  pose proof (settled_futures _ c eq_refl Hv Hs) as Hall.
  destruct (retrieve_registered_news_by_rss_settled W T w Hlog Hall)
    as (w0 & Hd & Hl & E).
  assert (Forall (λ f, (is_Some (yielded_by f) ∧ warned_by f = None
                        ∧ fetch_failed f.2 = false) ∨
                       (yielded_by f = None ∧ is_Some (warned_by f)
                        ∧ fetch_failed f.2 = true)) (finished c)) as Hone.
  { rewrite Forall_forall in *. intros f Hf.
    by apply (settled_future n c f eq_refl Hv Hf), Hs. }
  destruct (length_omap_yielded _ Hone) as [Hsum Hk].
  assert (length (finished c) = n) as Hn by (by apply Hv).
  unfold every_task_is_accounted. rewrite E. fold c.
  rewrite (logged_since_collector _ _ _ Hl), failure_warnings_logged.
  split_and!; try done.
  - unfold failed_fetches. fold n. lia.
  - intros i Hi. destruct (every_task_finished c i Hv Hstop Hi) as [o Ho].
    exists o. split_and!; [done| |].
    + intros o' Ho'. destruct Hv as (Hnd & _). by eapply NoDup_fst_unique.
    + rewrite Forall_forall in Hone. destruct (Hone _ Ho) as [(?&?&?)|(?&?&?)]; eauto.
Qed.

(** C4 (amended): when [error_log] is registered, no future handed
    over ended in an exception other than [HTTPError] and [URLError],
    and the iteration of [as_completed] ends with [TimeoutError], the
    generator ends normally after logging one deadline warning; it has
    yielded the feed of every future handed over with a fetch that
    returned and nothing else, so that the tasks whose future was not
    handed over, of which there is at least one, contribute neither a
    feed nor a warning, whether their fetch was still running or was
    over by then. *)
Theorem deadline_abandons_outstanding_tasks W T w msg :
  let c := as_completed W T submitted_tasks in
  let n := length submitted_tasks in
  has_error_log w →
  valid_completion n c →
  deadline_error c = Some msg →
  Forall (λ f, fetch_settled f.2) (finished c) →
  deadline_is_survived W T w ∧
  (let '(feeds, r, w') := retrieve_registered_news_by_rss W T w in
   logged_since w w'
   = retrieving_record :: omap warned_by (finished c)
       ++ [warning ("Timeout in news_collector: " +:+ msg)] ∧
   length feeds + length (List.filter is_fetch_failure_warning (logged_since w w'))
   = length (finished c)) ∧
  length (finished c) < n.
Proof.
  intros c n Hlog Hv Hstop Hs.
  pose proof (settled_futures _ c eq_refl Hv Hs) as Hall.
  destruct (retrieve_registered_news_by_rss_settled W T w Hlog Hall)
    as (w0 & Hd & Hl & E).
  assert (Forall (λ f, (is_Some (yielded_by f) ∧ warned_by f = None
                        ∧ fetch_failed f.2 = false) ∨
                       (yielded_by f = None ∧ is_Some (warned_by f)
                        ∧ fetch_failed f.2 = true)) (finished c)) as Hone.
  { rewrite Forall_forall in *. intros f Hf.
    by apply (settled_future n c f eq_refl Hv Hf), Hs. }
  destruct (length_omap_yielded _ Hone) as [Hsum Hk].
  unfold deadline_is_survived. rewrite E. fold c.
  rewrite (logged_since_collector _ _ _ Hl).
  rewrite failure_warnings_logged, deadline_warnings_logged, Hstop.
  split_and!; try done.
  destruct Hv as (Hnd & Hlt & Hiff).
  assert (length (finished c) ≠ n) as Hne.
  { intros Hn. apply Hiff in Hn. congruence. }
  assert (length (finished c).*1 ≤ length (seq 0 n)) as Hle.
  { apply submseteq_length, NoDup_submseteq; [done|].
    intros x Hx. rewrite Forall_forall in Hlt. apply elem_of_seq.
    specialize (Hlt x Hx). lia. }
  rewrite length_fmap, length_seq in Hle. lia.
Qed.

(** *** Deliveries that extend *)

Lemma for_done_iter_app (body : nat * result Raw → Gen (Feed := Feed) unit)
    pre rest stop w :
  for_done_iter (pre ++ rest) stop body w
  = match for_done_iter pre None body w with
    | (feeds, Return _, w') =>
        let '(feeds', r, w'') := for_done_iter rest stop body w' in
        (feeds ++ feeds', r, w'')
    | (feeds, Raise e, w') => (feeds, Raise e, w')
    end.
Proof.
  revert w. induction pre as [|f pre IH]; intros w.
  - simpl. by destruct (for_done_iter rest stop body w) as [[? ?] ?].
  - cbn [app for_done_iter]. unfold mbind, Gen_bind, gen_bind.
    destruct (body f w) as [[feeds0 [[]|e]] w0]; [|done].
    rewrite IH. destruct (for_done_iter pre None body w0) as [[feeds1 [[]|e]] w1].
    + destruct (for_done_iter rest stop body w1) as [[feeds2 r2] w2].
      by rewrite app_assoc.
    + done.
Qed.






(** C9: [log_warning] raises [NewsScrapperError] when no logger named
    [error_log] is registered; when one is, it makes one call on that
    logger, [error] if [is_error] and [warning] otherwise, and returns.
    So each of the three logging paths of the collector needs the
    logger: without it, the first failed fetch (of class [HTTPError] or
    [URLError]) or, if every finished fetch returned, the deadline ends
    the generator with [NewsScrapperError]. *)
Theorem log_warning_requires_error_log msg is_error w :
  (¬ has_error_log w →
   ∃ w', log_warning msg is_error w
         = (Raise (NewsScrapperError "Please set up 'error_log' logger first."), w')) ∧
  (has_error_log w →
   log_warning msg is_error w
   = (Return tt,
      add_log (mkLog "error_log" (if is_error then LvError else LvWarning) msg) w)) ∧
  (¬ has_error_log w →
   ∀ W T oks rest,
     finished (as_completed W T submitted_tasks) = oks ++ rest →
     Forall (λ f, is_Some (yielded_by f)) oks →
     match rest with
     | f :: _ => is_Some (warned_by f)
     | [] => is_Some (deadline_error (as_completed W T submitted_tasks))
     end →
     ∃ w', retrieve_registered_news_by_rss W T w
           = (omap yielded_by oks,
              Raise (NewsScrapperError "Please set up 'error_log' logger first."), w')).
Proof.
  split_and!.
  - apply log_warning_unregistered.
  - apply log_warning_registered.
  - intros Hlog W T oks rest Hfin Hoks Hrest.
    by apply (retrieve_registered_news_by_rss_unregistered W T w oks rest).
Qed.

End CollectorProperties.

Section MainProperties.

Context {Rule News DB Heap Source Category Raw Feed : Type}.
Context {env : LoggingEnv}.
Context {storage_api : @StorageAPI Rule News DB}.
Context {sources : @NewsSourceAPI News Source Category Raw Feed}.
Context {pool : @ThreadPool Source Category Raw}.
Context {pipeline : @PipelineAPI Rule News DB Heap}.
Local Abbreviation World := (@World Rule News DB Heap).

Implicit Types (w : World).

(** [main] stops at its reference to [scraper_utils.default_log_format]:
    the module binds [DEFAULT_LOG_FORMAT] and no name spelled in lower
    case. *)
Lemma main_raises_AttributeError w : ∃ w', main w = (Raise AttributeError, w').
Proof.
  unfold main, timer. unfold mbind, M_bind. unfold bind at 1. unfold gets. cbv beta iota.
  unfold bind at 1.
  rewrite (setup_logger_runs_to "error_log" _ _ _ _ _ eq_refl accepted_error_log).
  unfold bind at 1. unfold scraper_utils_getattr, scraper_utils_strings.
  rewrite lookup_singleton_ne by done. unfold raise. eauto.
Qed.

Lemma for_each_quiet {A} (l : list A) (body : A → M unit) w :
  (∀ x w, ∃ w', body x w = (Return tt, w') ∧ log_calls w' = log_calls w) →
  ∃ w', for_each l body w = (Return tt, w') ∧ log_calls w' = log_calls w.
Proof.
  intros Hbody. revert w. induction l as [|x l IH]; intros w; simpl.
  - by exists w.
  - unfold mbind, M_bind, bind. destruct (Hbody x w) as (w1 & -> & H1).
    destruct (IH w1) as (w2 & -> & H2). exists w2. split; [done|]. congruence.
Qed.

(** C6 (amended): [main] takes no arguments and returns no pair.  The
    pipeline it runs after the logging set-up works with the module
    constants [MAX_WORKERS = 10] and [RSS_WORKER_TIMEOUT = 120]; when it
    completes it returns [None], and after the persistence phase it has
    logged at info level the message [Record <matched> news out of total
    <total> news.], where [total] counts the collected entries and
    [matched] the entries [get_target_news_by_scraping_rules] selects,
    followed by the elapsed-time message. *)
Theorem main_pipeline_logs_the_counts start_time w v w' :
  main_pipeline start_time w = (Return v, w') →
  v = PyNone ∧
  (∀ w0, ¬ returns_the_counts (main w0).1) ∧
  ∃ rules news target w1 w2 w3 w4 w5 elapsed,
    read_rules_from_file "test.rule" w = (Return rules, w1) ∧
    get_news_entries MAX_WORKERS RSS_WORKER_TIMEOUT w1 = (Return news, w2) ∧
    get_target_news_by_scraping_rules news rules w3 = (Return target, w4) ∧
    save_data_into_database "my_focus_news" rules target w4 = (Return tt, w5) ∧
    logged_since w5 w'
    = [mkLog "root" LvInfo (record_message (length target) (length news));
       mkLog "root" LvInfo ("Done. Elapsed time: " +:+ elapsed +:+ " seconds")].
Proof.
  intros Hrun.
  assert (∀ w0, ¬ returns_the_counts (main w0).1) as Hmain.
  { intros w0 (total & matched & Hr).
    destruct (main_raises_AttributeError w0) as [w1 E]. rewrite E in Hr. done. }
  unfold main_pipeline in Hrun. unfold mbind, M_bind in Hrun.
  unfold bind at 1 in Hrun.
  destruct (read_rules_from_file "test.rule" w) as [[rules|?] w1] eqn:E1; [|done].
  unfold bind at 1 in Hrun.
  destruct (get_news_entries MAX_WORKERS RSS_WORKER_TIMEOUT w1)
    as [[news|?] w2] eqn:E2; [|done].
  unfold bind at 1 in Hrun.
  destruct (set_rules_to_news_entries news rules w2) as [[[]|?] w2a] eqn:E3; [|done].
  unfold bind at 1 in Hrun.
  destruct (logging_info_runs "Updating 'local_news_sources.txt'..." w2a)
    as (w2b & E4 & _ & _).
  rewrite E4 in Hrun. clear E4. unfold bind at 1 in Hrun.
  destruct (update_local_news_sources_list news "local_news_sources.txt" _)
    as [[[]|?] w2c] eqn:E5; [|done].
  unfold bind at 1 in Hrun. unfold open_w at 1, modify at 1 in Hrun.
  unfold bind at 1 in Hrun.
  match type of Hrun with
  | context [for_each news ?body ?w0] =>
      destruct (for_each_quiet news body w0) as (w3 & E6 & _)
  end.
  { intros x w0. unfold bind, gets, print_to, modify. eauto. }
  rewrite E6 in Hrun. clear E6. unfold bind at 1 in Hrun.
  destruct (get_target_news_by_scraping_rules news rules w3)
    as [[target|?] w4] eqn:E7; [|done].
  unfold bind at 1 in Hrun.
  destruct (save_data_into_database "my_focus_news" rules target w4)
    as [[[]|?] w5] eqn:E8; [|done].
  unfold bind at 1 in Hrun.
  destruct (logging_info_runs (record_message (length target) (length news)) w5)
    as (w5a & E9 & _ & Hl9).
  rewrite E9 in Hrun. clear E9. unfold bind at 1 in Hrun.
  match type of Hrun with
  | context [for_each target ?body ?w0] =>
      destruct (for_each_quiet target body w0) as (w6 & E10 & Hl10)
  end.
  { intros x w0. unfold bind, gets, print, modify. eauto. }
  rewrite E10 in Hrun. clear E10. unfold bind at 1 in Hrun.
  unfold timer, gets in Hrun. unfold bind at 1 in Hrun.
  destruct (logging_info_runs
              ("Done. Elapsed time: " +:+ format_seconds (clock w6 - start_time)
                 +:+ " seconds") w6) as (w6a & E11 & _ & Hl11).
  rewrite E11 in Hrun. clear E11. unfold ret in Hrun.
  injection Hrun as <- <-.
  split_and!; [done|done|].
  exists rules, news, target, w1, w2, w3, w4, w5, (format_seconds (clock w6 - start_time)).
  split_and!; try done.
  unfold logged_since. simpl. rewrite Hl11, Hl10. simpl. rewrite Hl9.
  rewrite <- app_assoc. by rewrite drop_app_length.
Qed.

End MainProperties.
(** * Further properties *)

Section MoreUtilsProperties.

Context {Rule News DB Heap : Type} {env : LoggingEnv}.
Local Abbreviation World := (@World Rule News DB Heap).

Implicit Types (w : World) (msg name : string).

(** *** [setup_logger] *)

Ltac side_conditions :=
  first [done | split; [done | intros ? ?; congruence]].

Lemma setup_logger_rejected name lv logfile to_console log_format e w :
  Formatter_error log_format = Some e →
  setup_logger name lv logfile to_console log_format w = (Raise e, w).
Proof.
  intros Hfmt. unfold setup_logger, Formatter. rewrite Hfmt.
  unfold mbind, M_bind. unfold bind at 1. reflexivity.
Qed.

Lemma setup_logger_fails_to name lv logfile to_console log_format f e w :
  is_root_name name = false →
  Formatter_error log_format = None →
  logfile_given logfile = Some f → FileHandler_error f = Some e →
  setup_logger name lv logfile to_console log_format w
  = (Raise e,
     set_loggerDict
       (<[name := mkLogger (Some lv)
                    (default [] (lg_handlers <$> loggerDict w !! name))]>
          (registered name (loggerDict w))) w).
Proof.
  intros Hname Hfmt Hf He. pose proof (not_root_name _ Hname) as Hroot.
  unfold setup_logger, Formatter. rewrite Hfmt.
  unfold mbind, M_bind. unfold bind at 1. unfold ret at 1. cbv beta iota.
  unfold bind at 1. rewrite (getLogger_runs _ _ Hname).
  unfold alter_logger. destruct (decide (name = "root")) as [?|_]; [done|].
  unfold FileHandler_init. rewrite Hf, He. unfold_monad. simpl. f_equal.
  unfold set_loggerDict. simpl. f_equal.
  apply map_eq. intros i. destruct (decide (name = i)) as [<-|Hne].
  - rewrite lookup_alter_eq, lookup_insert_eq, registered_lookup.
    by destruct (loggerDict w !! name).
  - by rewrite lookup_alter_ne, lookup_insert_ne.
Qed.

Lemma setup_logger_root_to name lv logfile to_console log_format w :
  is_root_name name = true →
  accepted logfile log_format →
  setup_logger name lv logfile to_console log_format w
  = (Return "root",
     set_files (files_opened logfile (files w))
       (set_root_logger
          (mkLogger (Some lv)
             (lg_handlers (root_logger w)
                ++ handlers_added logfile to_console log_format)) w)).
Proof.
  intros Hname [Hfmt Hfile].
  unfold setup_logger, Formatter. rewrite Hfmt.
  unfold mbind, M_bind. unfold bind at 1. unfold ret at 1. cbv beta iota.
  unfold bind at 1. unfold getLogger. rewrite Hname. unfold ret at 1. cbv beta iota.
  unfold alter_logger. destruct (decide ("root" = "root")) as [_|?]; [|done].
  unfold handlers_added, files_opened, FileHandler_init.
  destruct (logfile_given logfile) as [f|] eqn:Hf.
  - rewrite (Hfile f eq_refl). unfold_monad. simpl.
    destruct (files w !! f), to_console; simpl; f_equal;
      unfold set_files, set_root_logger; simpl; f_equal;
      rewrite <- ?app_assoc, ?app_nil_r; done.
  - unfold_monad. simpl.
    destruct to_console; simpl; f_equal;
      unfold set_files, set_root_logger; simpl; f_equal;
      rewrite <- ?app_assoc, ?app_nil_r; done.
Qed.

(** X1: for a name without a dot other than the two names of the root
    logger, and a format and a log file the library accepts,
    [setup_logger] returns the logger of that name, registered if it
    was not; it sets its level, keeps the handlers the logger had and
    adds after them a file handler when a non-empty [logfile] is given
    and a stream handler when [to_console] is true.  No other entry of
    the dictionary changes, nor do the root logger, the calls made on
    loggers and the class attribute.  The log file is created when it
    was not there, and no other file is. *)
Theorem setup_logger_registers_one_logger name lv logfile to_console log_format w :
  is_root_name name = false → parents name = [] →
  accepted logfile log_format →
  let had := default [] (lg_handlers <$> loggerDict w !! name) in
  ∃ w', setup_logger name lv logfile to_console log_format w = (Return name, w') ∧
        loggerDict w' !! name
        = Some (mkLogger (Some lv) (had ++ handlers_added logfile to_console log_format)) ∧
        (∀ other, other ≠ name → loggerDict w' !! other = loggerDict w !! other) ∧
        log_calls w' = log_calls w ∧
        root_logger w' = root_logger w ∧
        NewsScrapperError_logger w' = NewsScrapperError_logger w ∧
        files w' = files_opened logfile (files w).
Proof.
  intros Hname Hparents Hacc had. eexists.
  split; [by apply setup_logger_runs_to|]. simpl.
  split_and!; try done.
  - by rewrite lookup_insert_eq.
  - intros other Hne. rewrite lookup_insert_ne by done.
    rewrite registered_lookup_ne, Hparents by done.
    by destruct (loggerDict w !! other), (loggerDict w !! name).
Qed.

(** X2: handlers pile up.  For a name other than the two of the root
    logger and arguments the library accepts, a second call of
    [setup_logger] for the same name keeps the handlers of the first
    call and adds its own after them, so two calls with the same
    arguments leave every handler twice; the level is that of the last
    call. *)
Theorem setup_logger_twice_keeps_both_handlers name lv1 logfile1 console1 format1
    lv2 logfile2 console2 format2 w :
  is_root_name name = false →
  accepted logfile1 format1 → accepted logfile2 format2 →
  let had := default [] (lg_handlers <$> loggerDict w !! name) in
  let w1 := (setup_logger name lv1 logfile1 console1 format1 w).2 in
  let w2 := (setup_logger name lv2 logfile2 console2 format2 w1).2 in
  loggerDict w2 !! name
  = Some (mkLogger (Some lv2)
            (had ++ handlers_added logfile1 console1 format1
                 ++ handlers_added logfile2 console2 format2)).
Proof.
  intros Hname Hacc1 Hacc2 had w1 w2. unfold w2, w1.
  rewrite !setup_logger_runs_to by done. simpl.
  rewrite !lookup_insert_eq. simpl. by rewrite <- app_assoc.
Qed.

(** X24: asked for the name [''] or ['root'], [setup_logger] configures
    the root logger: it returns it, sets its level and adds the
    handlers to it.  Nothing is registered, so a call for either name
    sets up no logger that [log_warning] could find. *)
Theorem setup_logger_for_a_root_name name lv logfile to_console log_format w :
  name = EmptyString ∨ name = "root" →
  accepted logfile log_format →
  ∃ w', setup_logger name lv logfile to_console log_format w = (Return "root", w') ∧
        loggerDict w' = loggerDict w ∧
        root_logger w'
        = mkLogger (Some lv)
            (lg_handlers (root_logger w)
               ++ handlers_added logfile to_console log_format) ∧
        log_calls w' = log_calls w ∧
        NewsScrapperError_logger w' = NewsScrapperError_logger w ∧
        (has_error_log w' ↔ has_error_log w).
Proof.
  intros Hname Hacc. eexists. split.
  - apply setup_logger_root_to; [|done]. by destruct Hname as [->| ->].
  - done.
Qed.

(** X25: the two ways in which [setup_logger] raises.  A format the
    formatter rejects ends the call before anything is done.  A log
    file that cannot be opened ends it after the logger has been
    registered and its level set: no handler has been added, the
    stream handler asked for with [to_console] included, and no file
    has been created. *)
Theorem setup_logger_raises_half_way name lv logfile to_console log_format w :
  (∀ e, Formatter_error log_format = Some e →
        setup_logger name lv logfile to_console log_format w = (Raise e, w)) ∧
  (∀ f e, is_root_name name = false →
          Formatter_error log_format = None →
          logfile_given logfile = Some f → FileHandler_error f = Some e →
          ∃ w', setup_logger name lv logfile to_console log_format w = (Raise e, w') ∧
                loggerDict w' !! name
                = Some (mkLogger (Some lv)
                          (default [] (lg_handlers <$> loggerDict w !! name))) ∧
                files w' = files w ∧ log_calls w' = log_calls w).
Proof.
  split.
  - intros e He. by apply setup_logger_rejected.
  - intros f e Hname Hfmt Hf He. eexists.
    split; [by apply (setup_logger_fails_to _ _ _ _ _ f e)|]. simpl.
    split_and!; try done. by rewrite lookup_insert_eq.
Qed.

Lemma has_error_log_after_setup lv logfile to_console log_format w :
  Formatter_error log_format = None →
  has_error_log (setup_logger "error_log" lv logfile to_console log_format w).2.
Proof.
  intros Hfmt. unfold has_error_log.
  destruct (logfile_given logfile) as [f|] eqn:Hf.
  - destruct (FileHandler_error f) as [e|] eqn:He.
    + rewrite (setup_logger_fails_to "error_log" _ _ _ _ f e) by done. simpl.
      rewrite lookup_insert_eq. eauto.
    + rewrite (setup_logger_runs_to "error_log") by side_conditions.
      simpl. rewrite lookup_insert_eq. eauto.
  - rewrite (setup_logger_runs_to "error_log") by side_conditions.
    simpl. rewrite lookup_insert_eq. eauto.
Qed.

(** X3: once [setup_logger] has been called for the name [error_log]
    with a format the formatter accepts, whatever its other arguments,
    [log_warning] returns: it makes its one call on that logger and
    raises nothing.  This is so even when the call of [setup_logger]
    raised because its log file could not be opened, the logger being
    registered before the file is opened. *)
Theorem log_warning_returns_after_setup lv logfile to_console log_format msg is_error w :
  Formatter_error log_format = None →
  let w1 := (setup_logger "error_log" lv logfile to_console log_format w).2 in
  log_warning msg is_error w1
  = (Return tt,
     add_log (mkLog "error_log" (if is_error then LvError else LvWarning) msg) w1).
Proof. intros Hfmt w1. by apply log_warning_registered, has_error_log_after_setup. Qed.

(** *** [NewsScrapperError] *)

Lemma NewsScrapperError_init_set l msg w :
  NewsScrapperError_logger w = Some l →
  NewsScrapperError_init msg w
  = (Return (NewsScrapperError msg), add_log (mkLog l LvError msg) w).
Proof.
  intros Hl. unfold NewsScrapperError_init, logger_call. unfold_monad. simpl.
  rewrite Hl. simpl. by rewrite Hl.
Qed.

Lemma NewsScrapperError_init_registered msg w :
  NewsScrapperError_logger w = None → has_error_log w →
  NewsScrapperError_init msg w
  = (Return (NewsScrapperError msg),
     add_log (mkLog "error_log" LvError msg)
       (set_NewsScrapperError_logger (Some "error_log") w)).
Proof.
  intros Hl Hlog. unfold NewsScrapperError_init, setup_error_logger, logger_call.
  unfold mbind, M_bind. unfold bind at 1. unfold gets at 1. rewrite Hl.
  unfold bind at 1 2. unfold gets at 1.
  destruct (decide (is_Some (loggerDict w !! "error_log"))) as [_|Hn]; [|done].
  unfold bind at 1. rewrite getLogger_error_log by done.
  unfold modify, bind, gets, ret. reflexivity.
Qed.

Lemma NewsScrapperError_init_unregistered msg w :
  NewsScrapperError_logger w = None → ¬ has_error_log w →
  NewsScrapperError_init msg w
  = (Return (NewsScrapperError msg),
     add_log (mkLog "error_log" LvError msg)
       (set_NewsScrapperError_logger (Some "error_log")
          (set_files (files_opened (Some "error.log") (files w))
             (set_loggerDict
                (<["error_log" :=
                     mkLogger (Some LvWarning)
                       [FileHandler "error.log" DEFAULT_LOG_FORMAT;
                        StreamHandler DEFAULT_LOG_FORMAT]]> (loggerDict w)) w)))).
Proof.
  intros Hl Hlog. unfold NewsScrapperError_init, setup_error_logger, logger_call.
  unfold mbind, M_bind. unfold bind at 1. unfold gets at 1. rewrite Hl.
  unfold bind at 1 2. unfold gets at 1.
  destruct (decide (is_Some (loggerDict w !! "error_log"))) as [Hy|_]; [done|].
  unfold bind at 1.
  rewrite (setup_logger_runs_to "error_log" _ _ _ _ _ eq_refl accepted_error_log).
  assert (loggerDict w !! "error_log" = None) as Hnone.
  { destruct (loggerDict w !! "error_log") eqn:E; [|done]. destruct Hlog.
    unfold has_error_log. rewrite E. eauto. }
  rewrite Hnone, (registered_error_log _ Hnone), insert_insert_eq.
  unfold modify, bind, gets, ret. reflexivity.
Qed.

(** X4: [log_warning] can fail only once.  When it raises (no logger
    [error_log], class attribute in order), building the exception
    registers [error_log] at level WARNING with a file handler on
    [error.log] and a stream handler, and the only call it makes on a
    logger is the error "Please set up 'error_log' logger first.": the
    message given to [log_warning] is not logged.  Every later call of
    [log_warning] returns. *)
Theorem log_warning_fails_at_most_once msg is_error w :
  class_logger_consistent w → ¬ has_error_log w →
  ∃ w', log_warning msg is_error w
        = (Raise (NewsScrapperError "Please set up 'error_log' logger first."), w') ∧
        loggerDict w'
        = <["error_log" :=
              mkLogger (Some LvWarning)
                [FileHandler "error.log" DEFAULT_LOG_FORMAT;
                 StreamHandler DEFAULT_LOG_FORMAT]]> (loggerDict w) ∧
        log_calls w'
        = log_calls w
            ++ [mkLog "error_log" LvError "Please set up 'error_log' logger first."] ∧
        NewsScrapperError_logger w' = Some "error_log" ∧
        ∀ msg' is_error',
          log_warning msg' is_error' w'
          = (Return tt,
             add_log (mkLog "error_log" (if is_error' then LvError else LvWarning) msg')
                     w').
Proof.
  intros [Hcls|[_ Hlog]] Hno; [|done].
  eexists. split.
  - unfold log_warning. unfold mbind at 1, M_bind, bind at 1, gets at 1.
    destruct (decide (is_Some (loggerDict w !! "error_log"))) as [Hy|_]; [done|].
    unfold raise_NewsScrapperError. unfold mbind, M_bind, bind.
    rewrite NewsScrapperError_init_unregistered by done. reflexivity.
  - simpl. split_and!; try done. intros msg' is_error'.
    apply log_warning_registered. unfold has_error_log. simpl.
    rewrite lookup_insert_eq. eauto.
Qed.

(** X5: building a [NewsScrapperError] while a logger [error_log] is
    registered reuses that logger: the registry is left as it is (no
    handler is added), the message is logged on it as an error, and the
    class attribute names it. *)
Theorem NewsScrapperError_reuses_error_log msg w :
  class_logger_consistent w → has_error_log w →
  ∃ w', NewsScrapperError_init msg w = (Return (NewsScrapperError msg), w') ∧
        loggerDict w' = loggerDict w ∧
        log_calls w' = log_calls w ++ [mkLog "error_log" LvError msg] ∧
        NewsScrapperError_logger w' = Some "error_log".
Proof.
  intros [Hcls|[Hcls _]] Hlog; eexists.
  - split; [by apply NewsScrapperError_init_registered|]. done.
  - split; [by apply NewsScrapperError_init_set|]. simpl. by rewrite Hcls.
Qed.

End MoreUtilsProperties.

Section MoreUtilsProperties2.

Context {Rule News DB Heap Json : Type} {env : LoggingEnv} {json : @JsonAPI Json}.
Local Abbreviation World := (@World Rule News DB Heap).

Implicit Types (w : World) (msg name link host : string).

Ltac side_conditions :=
  first [done | split; [done | intros ? ?; congruence]].

Ltac destruct_log_warning :=
  match goal with
  | |- context [log_warning ?m ?b ?w] =>
      destruct (log_warning m b w) as [[[]|?] ?]; simpl in *
  end.

(** *** The class attribute *)

Lemma consistent_add_log r w :
  class_logger_consistent w → class_logger_consistent (add_log r w).
Proof. done. Qed.

(** Whatever its arguments, and whether it returns or raises,
    [setup_logger] leaves the class attribute alone and unregisters no
    name. *)
Lemma setup_logger_keeps name lv logfile to_console log_format w :
  let w' := (setup_logger name lv logfile to_console log_format w).2 in
  NewsScrapperError_logger w' = NewsScrapperError_logger w ∧
  ∀ k, is_Some (loggerDict w !! k) → is_Some (loggerDict w' !! k).
Proof.
  intros w'. unfold w'. clear w'.
  destruct (Formatter_error log_format) as [e|] eqn:Hfmt.
  { by rewrite (setup_logger_rejected _ _ _ _ _ e). }
  assert (∀ l k,
            is_Some (loggerDict w !! k) →
            is_Some (<[name := l]> (registered name (loggerDict w)) !! k)) as Hkeep.
  { intros l k Hk. destruct (decide (k = name)) as [->|Hne].
    - rewrite lookup_insert_eq. eauto.
    - rewrite lookup_insert_ne, registered_lookup_ne by done.
      destruct Hk as [x ->]. eauto. }
  destruct (is_root_name name) eqn:Hname.
  - destruct (logfile_given logfile) as [f|] eqn:Hf.
    + destruct (FileHandler_error f) as [e|] eqn:He.
      * unfold setup_logger, Formatter. rewrite Hfmt.
        unfold mbind, M_bind. unfold bind at 1. unfold ret at 1. cbv beta iota.
        unfold bind at 1. unfold getLogger. rewrite Hname. unfold ret at 1.
        cbv beta iota.
        unfold alter_logger. destruct (decide ("root" = "root")) as [_|?]; [|done].
        unfold FileHandler_init. rewrite Hf, He. unfold_monad. simpl. done.
      * rewrite setup_logger_root_to by side_conditions. done.
    + rewrite setup_logger_root_to by side_conditions. done.
  - destruct (logfile_given logfile) as [f|] eqn:Hf.
    + destruct (FileHandler_error f) as [e|] eqn:He.
      * rewrite (setup_logger_fails_to _ _ _ _ _ f e) by done. simpl.
        split; [done|]. intros k. by apply Hkeep.
      * rewrite setup_logger_runs_to by side_conditions. simpl.
        split; [done|]. intros k. by apply Hkeep.
    + rewrite setup_logger_runs_to by side_conditions. simpl.
      split; [done|]. intros k. by apply Hkeep.
Qed.

Lemma consistent_setup_logger name lv logfile to_console log_format w :
  class_logger_consistent w →
  class_logger_consistent (setup_logger name lv logfile to_console log_format w).2.
Proof.
  destruct (setup_logger_keeps name lv logfile to_console log_format w) as [Hcls' Hkeep].
  intros [Hcls|[Hcls Hlog]]; [left|right]; rewrite Hcls'; [done|].
  split; [done|]. by apply Hkeep.
Qed.

Lemma consistent_NewsScrapperError_init msg w :
  class_logger_consistent w →
  class_logger_consistent (NewsScrapperError_init msg w).2.
Proof.
  intros [Hcls|[Hcls Hlog]].
  - destruct (decide (has_error_log w)) as [Hlog|Hlog].
    + rewrite NewsScrapperError_init_registered by done. by right.
    + rewrite NewsScrapperError_init_unregistered by done. right.
      split; [done|]. unfold has_error_log. simpl. rewrite lookup_insert_eq. eauto.
  - rewrite (NewsScrapperError_init_set "error_log") by done. by right.
Qed.

Lemma consistent_log_warning msg is_error w :
  class_logger_consistent w → class_logger_consistent (log_warning msg is_error w).2.
Proof.
  intros Hc. destruct (decide (has_error_log w)) as [Hlog|Hlog].
  - by rewrite log_warning_registered.
  - unfold log_warning. unfold mbind at 1, M_bind, bind at 1, gets at 1.
    destruct (decide (is_Some (loggerDict w !! "error_log"))) as [Hy|_]; [done|].
    unfold raise_NewsScrapperError. unfold mbind, M_bind, bind.
    pose proof (consistent_NewsScrapperError_init
                  "Please set up 'error_log' logger first." w Hc) as Hc'.
    by destruct (NewsScrapperError_init _ w) as [[e|e] w'].
Qed.

Lemma extract_unmatched link w :
  base_url_pattern_match link = None →
  extract_domain_name_from_url link w
  = match log_warning ("News link [" +:+ link +:+ "] does not match base_url_pattern.")
            false w with
    | (Return _, w') => (Return None, w')
    | (Raise e, w') => (Raise e, w')
    end.
Proof.
  intros Hn. unfold extract_domain_name_from_url, try_except. rewrite Hn.
  unfold raise, mbind, M_bind, bind. reflexivity.
Qed.

Lemma extract_matched link host w :
  base_url_pattern_match link = Some host →
  extract_domain_name_from_url link w = (Return (Some (lstrip "www." host)), w).
Proof.
  intros Hm. unfold extract_domain_name_from_url, try_except. rewrite Hm. reflexivity.
Qed.

(** *** [read_json_from_file] *)

(** The function in one equation: the body of the [try], then the
    [except] clause of the class of its exception, if there is one. *)
Lemma read_json_from_file_runs filename w :
  read_json_from_file filename w
  = match read_outcome filename w with
    | Return value => (Return value, w)
    | Raise (OtherError cls) =>
        if decide (cls = "FileNotFoundError") then
          match log_warning ("File '" +:+ filename +:+ "' not found.") false w with
          | (Return _, w') => (Return empty_dict, w')
          | (Raise e, w') => (Raise e, w')
          end
        else if decide (cls = "JSONDecodeError") then
          match log_warning ("Fail to parse the content of file '" +:+ filename
                               +:+ "' as JSON. ") false w with
          | (Return _, w') => (Return empty_dict, w')
          | (Raise e, w') => (Raise e, w')
          end
        else (Raise (OtherError cls), w)
    | Raise e => (Raise e, w)
    end.
Proof.
  unfold read_json_from_file, read_outcome, read_text, try_except.
  unfold mbind, M_bind. unfold bind at 1 2. unfold gets. cbv beta iota.
  destruct (files w !! filename) as [lines|].
  - unfold ret at 1. cbv beta iota.
    destruct (json_loads (file_content lines)) as [value|e]; [done|].
    unfold raise. cbv beta iota. destruct e; try done.
    repeat case_decide; try done; unfold bind;
      by destruct (log_warning _ false w) as [[[]|e] w'].
  - destruct (read_error filename) as [e|]; unfold raise; cbv beta iota; simpl.
    + destruct e; try done.
      repeat case_decide; try done; unfold bind;
        by destruct (log_warning _ false w) as [[[]|e] w'].
    + unfold bind. by destruct (log_warning _ false w) as [[[]|e] w'].
Qed.

(** X6: every function of [scraper_utils] keeps the class attribute
    [NewsScrapperError.logger] in order: if it is unset or names the
    registered logger [error_log] before a call of [setup_logger],
    [log_warning], [NewsScrapperError(...)], [extract_domain_name_from_url]
    or [read_json_from_file], it is so after the call, whether the call
    returns or raises. *)
Theorem scraper_utils_keeps_class_logger_consistent w :
  class_logger_consistent w →
  (∀ name lv logfile to_console log_format,
     class_logger_consistent (setup_logger name lv logfile to_console log_format w).2) ∧
  (∀ msg is_error, class_logger_consistent (log_warning msg is_error w).2) ∧
  (∀ msg, class_logger_consistent (NewsScrapperError_init msg w).2) ∧
  (∀ link, class_logger_consistent (extract_domain_name_from_url link w).2) ∧
  (∀ filename, class_logger_consistent (read_json_from_file filename w).2).
Proof.
  intros Hc. split_and!.
  - intros. by apply consistent_setup_logger.
  - intros. by apply consistent_log_warning.
  - intros. by apply consistent_NewsScrapperError_init.
  - intros link. destruct (base_url_pattern_match link) as [host|] eqn:E.
    + by rewrite (extract_matched link host).
    + rewrite extract_unmatched by done.
      pose proof (consistent_log_warning
                    ("News link [" +:+ link +:+ "] does not match base_url_pattern.")
                    false w Hc) as Hc'.
      by destruct (log_warning _ false w) as [[[]|e] w'].
  - intros filename. rewrite read_json_from_file_runs.
    pose proof (consistent_log_warning ("File '" +:+ filename +:+ "' not found.")
                  false w Hc) as Hc1.
    pose proof (consistent_log_warning
                  ("Fail to parse the content of file '" +:+ filename
                     +:+ "' as JSON. ") false w Hc) as Hc2.
    destruct (read_outcome filename w) as [value|e]; [done|].
    destruct e; try done. repeat case_decide; try done.
    + by destruct_log_warning.
    + by destruct_log_warning.
Qed.

(** X10: with [error_log] registered, the outcome of
    [read_json_from_file] is decided by what opening, reading and
    parsing the file does.  A file that is read and parsed gives its
    value, and nothing is logged.  [FileNotFoundError] and
    [JSONDecodeError] give the empty dictionary and one warning that
    names the file.  Every other exception of [open], [read] or
    [json.loads] (a directory, bytes that are not UTF-8, a text nested
    too deeply) reaches the caller, and nothing is logged for it. *)
Theorem read_json_from_file_with_error_log filename w :
  has_error_log w →
  read_json_from_file filename w
  = match read_outcome filename w with
    | Return value => (Return value, w)
    | Raise e =>
        match handler_message filename e with
        | Some msg => (Return empty_dict, add_log (warning msg) w)
        | None => (Raise e, w)
        end
    end.
Proof.
  intros Hlog. rewrite read_json_from_file_runs.
  destruct (read_outcome filename w) as [value|e]; [done|].
  destruct e; try done. unfold handler_message.
  repeat case_decide; try done; by rewrite log_warning_registered.
Qed.



(** *** [extract_domain_name_from_url] *)

Lemma lstrip_forall (p : ascii → bool) chars s :
  string_forall p s = true → string_forall p (lstrip chars s) = true.
Proof.
  induction s as [|c s IH]; [done|]. intros Hs. pose proof Hs as Hs'.
  simpl in Hs. apply andb_prop in Hs as [_ Hs].
  simpl. destruct (char_in c chars); [by apply IH|done].
Qed.

Lemma lstrip_length chars s : String.length (lstrip chars s) ≤ String.length s.
Proof.
  induction s as [|c s IH]; simpl; [done|].
  destruct (char_in c chars); simpl; lia.
Qed.

Lemma lstrip_empty chars s :
  lstrip chars s = EmptyString ↔ string_forall (λ c, char_in c chars) s = true.
Proof.
  induction s as [|c s IH]; simpl; [done|].
  destruct (char_in c chars); simpl; [done|]. split; discriminate.
Qed.

Lemma string_forall_ext (p q : ascii → bool) s :
  (∀ c, p c = q c) → string_forall p s = string_forall q s.
Proof. intros Hpq. induction s as [|c s IH]; simpl; [done|]. by rewrite Hpq, IH. Qed.

(** X7: a link whose host is not followed by a slash is outside the
    pattern, whether the text ends after the host ([http://example.com])
    or goes on with another character such as the colon of a port: with
    [error_log] registered the function logs its warning and returns
    [None]. *)
Theorem link_without_slash_after_host_is_rejected scheme host rest w :
  scheme = "http://" ∨ scheme = "https://" →
  string_forall host_char host = true →
  match rest with
  | EmptyString => True
  | String c _ => host_char c = false ∧ c ≠ "/"%char
  end →
  has_error_log w →
  (∀ h, ¬ matches_base_url_pattern (scheme +:+ host +:+ rest) h) ∧
  extract_domain_name_from_url (scheme +:+ host +:+ rest) w
  = (Return None,
     add_log (warning ("News link [" +:+ (scheme +:+ host +:+ rest)
                         +:+ "] does not match base_url_pattern.")) w).
Proof.
  intros Hscheme Hhost Hrest Hlog.
  assert (base_url_pattern_match (scheme +:+ host +:+ rest) = None) as Hn.
  { assert (span_host (host +:+ rest) = (host, rest)) as Hspan.
    { apply span_host_app; [done|]. destruct rest; [done|]. by destruct Hrest. }
    unfold base_url_pattern_match.
    destruct Hscheme as [-> | ->]; simpl; rewrite Hspan;
      destruct host; [done| |done|]; (destruct rest as [|c rest]; [done|]);
      destruct Hrest as [_ Hc]; by rewrite decide_False. }
  split; [by apply base_url_pattern_no_match|].
  rewrite extract_unmatched by done. by rewrite log_warning_registered.
Qed.

(** X8: the name returned for a matching link is made of characters of
    the class only, is no longer than the host, and is empty exactly
    when the host consists of nothing but [w] and [.] (as in
    [http://www/]). *)
Theorem extracted_name_shape link host w :
  matches_base_url_pattern link host →
  ∃ out, extract_domain_name_from_url link w = (Return (Some out), w) ∧
         string_forall host_char out = true ∧
         String.length out ≤ String.length host ∧
         (out = EmptyString ↔ string_forall w_or_dot host = true).
Proof.
  intros Hm. pose proof Hm as (scheme & rest & _ & _ & Hhost & _).
  apply base_url_pattern_match_complete in Hm.
  exists (lstrip "www." host). split_and!.
  - by apply extract_matched.
  - by apply lstrip_forall.
  - apply lstrip_length.
  - rewrite lstrip_empty. by rewrite (string_forall_ext _ w_or_dot) by apply char_in_www.
Qed.

(** X9: the scheme makes no difference: a link with [https://] gives
    what the same link with [http://] gives, a domain name, [None] or an
    exception. *)
Theorem scheme_makes_no_difference rest w :
  (extract_domain_name_from_url ("https://" +:+ rest) w).1
  = (extract_domain_name_from_url ("http://" +:+ rest) w).1.
Proof.
  assert (base_url_pattern_match ("https://" +:+ rest)
          = base_url_pattern_match ("http://" +:+ rest)) as Heq by reflexivity.
  destruct (base_url_pattern_match ("http://" +:+ rest)) as [host|] eqn:E.
  - by rewrite (extract_matched _ host), (extract_matched _ host).
  - rewrite !extract_unmatched by done.
    destruct (decide (has_error_log w)) as [Hlog|Hlog].
    + by rewrite !log_warning_registered.
    + destruct (log_warning_unregistered w
                  ("News link [" +:+ ("https://" +:+ rest)
                     +:+ "] does not match base_url_pattern.") false Hlog) as [w1 ->].
      destruct (log_warning_unregistered w
                  ("News link [" +:+ ("http://" +:+ rest)
                     +:+ "] does not match base_url_pattern.") false Hlog) as [w2 ->].
      done.
Qed.

End MoreUtilsProperties2.

Section SequentialProperties.

Context {Rule News DB Heap Source Category Raw Feed : Type}.
Context {sources : @NewsSourceAPI News Source Category Raw Feed}.
Context {feeds : @FeedAPI Source Category Feed}.
Local Abbreviation World := (@World Rule News DB Heap).
Local Abbreviation Gen := (@Gen Rule News DB Heap Feed).

Implicit Types (w : World) (task : Source * Category).

(** The body of the inner loop, for a task. *)
Local Abbreviation fetch_body :=
  (λ task : Source * Category,
     match get_feed_object task.1 task.2 with
     | Raise (HTTPError _) | Raise (URLError _) => gen_ret tt
     | Raise e => gen_raise e
     | Return feed_obj => yield feed_obj
     end : Gen unit).

Lemma gen_for_each_app {A} (l1 l2 : list A) (body : A → Gen unit) w :
  gen_for_each (l1 ++ l2) body w
  = match gen_for_each l1 body w with
    | (ys, Return _, w') =>
        let '(ys', r, w'') := gen_for_each l2 body w' in (ys ++ ys', r, w'')
    | (ys, Raise e, w') => (ys, Raise e, w')
    end.
Proof.
  revert w. induction l1 as [|x l1 IH]; intros w.
  - simpl. by destruct (gen_for_each l2 body w) as [[? ?] ?].
  - cbn [app gen_for_each]. unfold mbind, Gen_bind, gen_bind.
    destruct (body x w) as [[ys0 [[]|e]] w0]; [|done].
    rewrite IH. destruct (gen_for_each l1 body w0) as [[ys1 [[]|e]] w1]; [|done].
    destruct (gen_for_each l2 body w1) as [[ys2 r2] w2]. by rewrite app_assoc.
Qed.

Lemma gen_for_each_fmap {A B} (f : A → B) (l : list A) (body : B → Gen unit) w :
  gen_for_each (f <$> l) body w = gen_for_each l (λ x, body (f x)) w.
Proof.
  revert w. induction l as [|x l IH]; intros w; [done|].
  cbn [fmap list_fmap gen_for_each]. unfold mbind, Gen_bind, gen_bind.
  destruct (body (f x) w) as [[ys0 [[]|e]] w0]; [|done]. by rewrite <- IH.
Qed.

(** The two nested loops visit the tasks in the order of
    [submitted_tasks]. *)
Lemma sequential_is_one_loop w :
  retrieve_registered_news_by_rss_sequentially w
  = gen_for_each submitted_tasks fetch_body w.
Proof.
  unfold retrieve_registered_news_by_rss_sequentially, submitted_tasks.
  revert w. induction news_source_registry as [|[class_name news_src] l IH]; intros w.
  - done.
  - rewrite bind_cons, gen_for_each_app. cbn [gen_for_each].
    unfold mbind at 1, Gen_bind, gen_bind.
    assert (categories news_src ≫= (λ category, [(news_src, category)])
            = (λ category, (news_src, category)) <$> categories news_src) as ->.
    { induction (categories news_src) as [|c cs IHc]; [done|].
      rewrite bind_cons, fmap_cons. by rewrite IHc. }
    rewrite gen_for_each_fmap. cbn [fst snd].
    destruct (gen_for_each (categories news_src) _ w) as [[ys [[]|e]] w']; [|done].
    rewrite <- IH. by destruct (gen_for_each l _ w') as [[? ?] ?].
Qed.

Lemma fetch_body_settled task w :
  task_settled task → fetch_body task w = (option_list (fetched task), Return tt, w).
Proof.
  unfold task_settled, fetched.
  by destruct (get_feed_object task.1 task.2) as [feed|[]].
Qed.


Lemma gen_for_each_settled (body : Source * Category → Gen unit)
    (l : list (Source * Category)) w :
  (∀ task w, task_settled task →
             body task w = (option_list (fetched task), Return tt, w)) →
  Forall task_settled l →
  gen_for_each l body w = (omap fetched l, Return tt, w).
Proof.
  intros Hbody. induction 1 as [|task l Hs _ IH]; [done|].
  cbn [gen_for_each omap list_omap]. unfold mbind, Gen_bind, gen_bind.
  rewrite (Hbody task w Hs), IH. by destruct (fetched task).
Qed.


(** X12: the sequential collector needs no logger and makes no logging
    call of its own: when every fetch returns or fails with [HTTPError]
    or [URLError], it yields the feeds of the fetches that returned, in
    the order in which the tasks are enumerated (sources in registry
    order, each with its categories in order), skips the failed ones in
    silence, and ends normally. *)
Theorem sequential_collector_skips_failures w :
  Forall task_settled submitted_tasks →
  retrieve_registered_news_by_rss_sequentially w
  = (omap fetched submitted_tasks, Return tt, w).
Proof.
  intros Hs. rewrite sequential_is_one_loop.
  by apply (gen_for_each_settled _ _ _ fetch_body_settled).
Qed.

Lemma sequential_run_settled w :
  Forall task_settled submitted_tasks →
  retrieve_registered_news_by_rss_sequentially w
  = (omap fetched submitted_tasks, Return tt, w).
Proof.
  intros Hs. rewrite sequential_is_one_loop.
  by apply (gen_for_each_settled _ _ _ fetch_body_settled).
Qed.


End SequentialProperties.

Section MoreCollectorProperties.

Context {Rule News DB Heap Source Category Raw Feed : Type}.
Context {env : LoggingEnv}.
Context {sources : @NewsSourceAPI News Source Category Raw Feed}.
Context {pool : @ThreadPool Source Category Raw}.
Context {feeds : @FeedAPI Source Category Feed}.
Local Abbreviation World := (@World Rule News DB Heap).

Implicit Types (w : World) (f : nat * result Raw) (futures : list (nat * result Raw)).

Local Abbreviation loop_body :=
  (λ '(future_obj, outcome),
     match submitted_tasks !! future_obj with
     | None => gen_raise KeyError
     | Some (news_src, category) =>
         let url := _get_rss_url news_src category in
         match outcome with
         | Raise (HTTPError code) =>
             lift (log_warning
                     ("HTTP Error " +:+ pretty code +:+ " for RSS feed '"
                        +:+ url +:+ "'") false)
         | Raise (URLError reason) =>
             lift (log_warning
                     ("URL Error [" +:+ reason +:+ "] for RSS feed '"
                        +:+ url +:+ "'") false)
         | Raise e => gen_raise e
         | Return raw_feed => yield (parse_feed news_src raw_feed category)
         end
     end).

Lemma settled_by_index f :
  f.1 < length submitted_tasks → fetch_settled f.2 →
  is_Some (yielded_by f) ∨ is_Some (warned_by f).
Proof.
  intros Hi Hs. apply lookup_lt_is_Some in Hi as [[news_src category] Hi].
  destruct f as [i o]. unfold yielded_by, warned_by. simpl in *. rewrite Hi.
  destruct o as [raw|[]]; simpl in *; try done; eauto.
Qed.

Lemma loop_body_other_exception i e w :
  i < length submitted_tasks → handled e = false →
  loop_body (i, Raise e) w = ([], Raise e, w).
Proof.
  intros Hi Hh. apply lookup_lt_is_Some in Hi as [[news_src category] Hi].
  cbv beta iota. rewrite Hi. by destruct e.
Qed.

(** The loop up to a future whose fetch raised an exception of no
    handled class. *)
Lemma for_done_iter_other_exception pre i e rest stop w :
  has_error_log w →
  Forall (λ f, f.1 < length submitted_tasks ∧ fetch_settled f.2) pre →
  i < length submitted_tasks → handled e = false →
  for_done_iter (pre ++ (i, Raise e) :: rest) stop loop_body w
  = (omap yielded_by pre, Raise e, add_logs (omap warned_by pre) w).
Proof.
  intros Hlog Hpre Hi Hh.
  assert (Forall (λ f, is_Some (yielded_by f) ∨ is_Some (warned_by f)) pre) as Hpre'.
  { eapply Forall_impl; [exact Hpre|]. intros f [? ?]. by apply settled_by_index. }
  rewrite for_done_iter_app.
  rewrite (for_done_iter_settled _ _ _ _ loop_body_settled Hlog Hpre').
  cbn [stop_result].
  rewrite (for_done_iter_raises _ (i, Raise e) rest stop _ e _
             (loop_body_other_exception i e _ Hi Hh)).
  by rewrite app_nil_r.
Qed.

Lemma retrieve_after_info W T w :
  ∃ w0, loggerDict w0 = loggerDict w ∧ log_calls w0 = log_calls w ∧
    retrieve_registered_news_by_rss W T w
    = gen_try_except
        (for_done_iter (finished (as_completed W T submitted_tasks))
           (deadline_error (as_completed W T submitted_tasks)) loop_body)
        (λ e, match e with
              | TimeoutError msg =>
                  Some (lift (log_warning ("Timeout in news_collector: " +:+ msg) false))
              | _ => None
              end)
        (add_logs [retrieving_record] w0).
Proof.
  destruct (logging_info_runs
              ("Retrieving " +:+ pretty (length submitted_tasks)
                 +:+ " RSS feeds concurrently.") w) as (w0 & E & Hd & Hl).
  exists w0. split_and!; [done..|].
  unfold retrieve_registered_news_by_rss.
  unfold mbind, Gen_bind. unfold gen_bind at 1. unfold lift at 1. rewrite E.
  fold retrieving_record.
  by destruct (gen_try_except _ _ _) as [[? ?] ?].
Qed.

(** X16: a fetch that itself raised [futures.TimeoutError] is taken for
    the deadline.  With [error_log] registered the collector logs the
    deadline warning with the message of that exception and ends
    normally: the futures that finished after it are never looked at,
    whether or not the deadline has passed. *)
Theorem fetch_timeout_is_taken_for_the_deadline W T w pre i msg rest :
  has_error_log w →
  finished (as_completed W T submitted_tasks) = pre ++ (i, Raise (TimeoutError msg)) :: rest →
  Forall (λ f, f.1 < length submitted_tasks ∧ fetch_settled f.2) pre →
  i < length submitted_tasks →
  ∃ w', retrieve_registered_news_by_rss W T w = (omap yielded_by pre, Return tt, w') ∧
        logged_since w w'
        = retrieving_record :: omap warned_by pre
            ++ [warning ("Timeout in news_collector: " +:+ msg)].
Proof.
  intros Hlog Hfin Hpre Hi.
  destruct (retrieve_after_info W T w) as (w0 & Hd & Hl & ->).
  unfold gen_try_except. rewrite Hfin.
  assert (has_error_log (add_logs [retrieving_record] w0)) as Hlog0.
  { unfold has_error_log. simpl. by rewrite Hd. }
  rewrite (for_done_iter_other_exception pre i (TimeoutError msg) rest _ _
             Hlog0 Hpre Hi eq_refl).
  rewrite add_logs_app. unfold lift.
  rewrite log_warning_registered by (unfold has_error_log; simpl; by rewrite Hd).
  rewrite add_log_add_logs, add_logs_app, app_nil_r.
  eexists. split; [reflexivity|]. rewrite (logged_since_collector _ _ _ Hl).
  by rewrite <- app_assoc.
Qed.

(** X17: a fetch that raised an exception of any other class (not
    [HTTPError], [URLError] or [futures.TimeoutError]) ends the generator with
    that exception.  The feeds and warnings of the futures that finished
    before it have been yielded and logged; nothing is logged for the
    failing task and the later futures are never looked at. *)
Theorem other_exception_leaves_the_collector W T w pre i e rest :
  has_error_log w →
  finished (as_completed W T submitted_tasks) = pre ++ (i, Raise e) :: rest →
  Forall (λ f, f.1 < length submitted_tasks ∧ fetch_settled f.2) pre →
  i < length submitted_tasks →
  handled e = false → (∀ msg, e ≠ TimeoutError msg) →
  ∃ w', retrieve_registered_news_by_rss W T w = (omap yielded_by pre, Raise e, w') ∧
        logged_since w w' = retrieving_record :: omap warned_by pre.
Proof.
  intros Hlog Hfin Hpre Hi Hh Hne.
  destruct (retrieve_after_info W T w) as (w0 & Hd & Hl & ->).
  unfold gen_try_except. rewrite Hfin.
  assert (has_error_log (add_logs [retrieving_record] w0)) as Hlog0.
  { unfold has_error_log. simpl. by rewrite Hd. }
  rewrite (for_done_iter_other_exception _ _ _ _ _ _ Hlog0 Hpre Hi Hh).
  rewrite add_logs_app.
  destruct e; try (eexists; split; [reflexivity|];
                   by rewrite (logged_since_collector _ _ _ Hl)).
  by destruct (Hne msg).
Qed.

Lemma no_categories_no_tasks :
  (∀ class_name news_src,
     (class_name, news_src) ∈ news_source_registry → categories news_src = []) →
  submitted_tasks = [].
Proof.
  unfold submitted_tasks. induction news_source_registry as [|[class_name news_src] l IH].
  - done.
  - intros Hall. rewrite bind_cons, IH.
    + rewrite (Hall class_name news_src) by left. done.
    + intros c s Hin. apply (Hall c s). by right.
Qed.

(** X15: with no registered source, or only sources without
    categories, the collector submits nothing: it logs "Retrieving 0
    RSS feeds concurrently.", yields nothing and ends normally, with or
    without a logger [error_log]. *)
Theorem nothing_registered_nothing_collected W T w :
  (∀ class_name news_src,
     (class_name, news_src) ∈ news_source_registry → categories news_src = []) →
  valid_completion (length submitted_tasks) (as_completed W T submitted_tasks) →
  ∃ w', retrieve_registered_news_by_rss W T w = ([], Return tt, w') ∧
        logged_since w w'
        = [mkLog "root" LvInfo "Retrieving 0 RSS feeds concurrently."].
Proof.
  intros Hnone Hvalid. pose proof (no_categories_no_tasks Hnone) as Htasks.
  destruct (retrieve_after_info W T w) as (w0 & Hd & Hl & ->).
  unfold gen_try_except. unfold retrieving_record. rewrite Htasks in *.
  destruct Hvalid as (_ & Hlt & Hiff).
  destruct (finished (as_completed W T [])) as [|f futures] eqn:Hfin.
  - rewrite (proj2 Hiff eq_refl). simpl. eexists. split; [reflexivity|].
    by rewrite (logged_since_collector _ _ _ Hl).
  - apply Forall_cons in Hlt as [Hf _]. simpl in Hf. lia.
Qed.

(** *** The two collectors *)

Lemma omap_ext_elem {A B} (g h : A → option B) (l : list A) :
  (∀ x, x ∈ l → g x = h x) → omap g l = omap h l.
Proof.
  induction l as [|x l IH]; intros Hgh; [done|]. cbn [omap list_omap].
  rewrite (Hgh x) by left. rewrite IH; [done|]. intros y Hy. apply Hgh. by right.
Qed.

Lemma omap_by_index {A B} (g : A → option B) (l : list A) :
  omap (λ i, l !! i ≫= g) (seq 0 (length l)) = omap g l.
Proof.
  induction l as [|x l IH] using rev_ind; [done|].
  rewrite length_app. simpl. rewrite Nat.add_1_r, seq_S, !omap_app. simpl.
  rewrite list_lookup_middle by done. simpl. f_equal.
  rewrite <- IH. apply omap_ext_elem. intros i Hi. apply elem_of_seq in Hi.
  by rewrite lookup_app_l by lia.
Qed.

(** X14: the two collectors of the module agree up to order.  When
    [error_log] is registered, [as_completed] hands over the future of
    every task, so that its iteration ends without [TimeoutError],
    each with a fetch that returned or failed in a handled way, and
    [get_feed_object] gives for each task what parsing the fetched raw
    feed gives (or raises what the fetch raised), the feeds yielded by
    the concurrent collector are a permutation of the feeds yielded by
    the sequential one. *)
Theorem collectors_agree_up_to_order W T w :
  let c := as_completed W T submitted_tasks in
  has_error_log w →
  valid_completion (length submitted_tasks) c →
  deadline_error c = None →
  Forall (λ f, fetch_settled f.2) (finished c) →
  (∀ i o news_src category,
     (i, o) ∈ finished c → submitted_tasks !! i = Some (news_src, category) →
     get_feed_object news_src category
     = match o with
       | Return raw_feed => Return (parse_feed news_src raw_feed category)
       | Raise e => Raise e
       end) →
  (retrieve_registered_news_by_rss W T w).1.1
    ≡ₚ (retrieve_registered_news_by_rss_sequentially (Rule := Rule) (DB := DB) w).1.1.
Proof.
  intros c Hlog Hvalid Hstop Hsettled Hagree.
  pose proof (settled_futures _ c eq_refl Hvalid Hsettled) as Hall.
  destruct (retrieve_registered_news_by_rss_settled W T w Hlog Hall)
    as (w0 & _ & _ & ->).
  assert (Forall task_settled submitted_tasks) as Htasks.
  { apply Forall_lookup. intros i [news_src category] Hi.
    destruct (every_task_finished c i Hvalid Hstop) as [o Ho].
    { by eapply lookup_lt_Some. }
    rewrite Forall_forall in Hsettled. specialize (Hsettled _ Ho).
    unfold task_settled. simpl in *. rewrite (Hagree i o news_src category Ho Hi).
    by destruct o. }
  rewrite sequential_run_settled by done. simpl. fold c.
  set (h := λ i, submitted_tasks !! i ≫= fetched).
  transitivity (omap h (finished c).*1).
  - assert (omap yielded_by (finished c) = omap h (finished c).*1) as ->; [|done].
    assert (∀ f, f ∈ finished c → yielded_by f = h f.1) as Hsame.
    { intros [i o] Hf. unfold yielded_by, h, fetched. simpl.
      destruct (submitted_tasks !! i) as [[news_src category]|] eqn:Hi; [|done].
      simpl. rewrite (Hagree i o news_src category Hf Hi). by destruct o. }
    revert Hsame. generalize (finished c). intros l.
    induction l as [|f l IH]; intros Hsame; [done|]. cbn [omap list_omap fmap list_fmap].
    rewrite (Hsame f) by left. rewrite IH; [done|]. intros g Hg. apply Hsame. by right.
  - rewrite <- (omap_by_index fetched submitted_tasks). fold h.
    apply omap_Permutation. destruct Hvalid as (Hnd & Hlt & Hiff).
    apply submseteq_length_Permutation.
    + apply NoDup_submseteq; [done|]. intros x Hx.
      rewrite Forall_forall in Hlt. apply elem_of_seq. specialize (Hlt x Hx). lia.
    + rewrite length_seq, length_fmap. apply Hiff in Hstop. lia.
Qed.

(** *** [get_news_entries] *)

(** X18: [get_news_entries] hands back the entries of the feeds in the
    order in which [as_completed] hands over the futures.  With
    [error_log] registered and no future handed over with an exception
    other than [HTTPError] and [URLError], it returns also when the
    iteration ends with [TimeoutError]: the entries of the futures
    handed over until then are the result, not an error. *)
Theorem get_news_entries_returns_what_was_handed_over W T w :
  let c := as_completed W T submitted_tasks in
  has_error_log w →
  valid_completion (length submitted_tasks) c →
  Forall (λ f, fetch_settled f.2) (finished c) →
  ∃ w', get_news_entries W T w
        = (Return (feed ← omap yielded_by (finished c); entries feed), w') ∧
        logged_since w w'
        = retrieving_record :: omap warned_by (finished c)
            ++ deadline_warnings (deadline_error c).
Proof.
  intros c Hlog Hvalid Hsettled.
  pose proof (settled_futures _ c eq_refl Hvalid Hsettled) as Hall.
  destruct (retrieve_registered_news_by_rss_settled W T w Hlog Hall)
    as (w0 & _ & Hl & E).
  unfold get_news_entries. rewrite E. eexists. split; [reflexivity|].
  by apply logged_since_collector.
Qed.

(** X19: without a logger [error_log] one failed fetch costs the whole
    collection: [get_news_entries] raises [NewsScrapperError], and the
    entries of the feeds that had been yielded before the failed fetch
    are dropped with it. *)
Theorem get_news_entries_loses_everything_without_error_log W T w oks f rest :
  ¬ has_error_log w →
  finished (as_completed W T submitted_tasks) = oks ++ f :: rest →
  Forall (λ f, is_Some (yielded_by f)) oks →
  is_Some (warned_by f) →
  ∃ w', get_news_entries W T w
        = (Raise (NewsScrapperError "Please set up 'error_log' logger first."), w').
Proof.
  intros Hlog Hfin Hoks Hf.
  destruct (retrieve_after_info W T w) as (w0 & Hd & _ & E).
  unfold get_news_entries. rewrite E. unfold gen_try_except. rewrite Hfin.
  rewrite (for_done_iter_returned _ _ _ _ _ loop_body_returned Hoks).
  assert (¬ has_error_log (add_logs [retrieving_record] w0)) as Hlog0.
  { unfold has_error_log. simpl. by rewrite Hd. }
  destruct (loop_body_unregistered _ f Hlog0 Hf) as [w' Eb].
  rewrite (for_done_iter_raises _ f rest _ _ _ w' Eb). eauto.
Qed.

End MoreCollectorProperties.

(** * More of news_collector.py: the persistence phase and [main] *)

Section MorePersistenceProperties.

Context {Rule News DB Heap : Type} {storage_api : @StorageAPI Rule News DB}.
Local Abbreviation World := (@World Rule News DB Heap).

Implicit Types (w : World) (d : DB) (rules : list Rule) (news : list News).

Lemma phase_app_Raise {A} (write : A → DB → result unit * DB) pre x rest d k u d1 e d2 :
  phase write pre d = (k, Return u, d1) →
  write x d1 = (Raise e, d2) →
  phase write (pre ++ x :: rest) d = (S (length pre), Raise e, d2).
Proof.
  revert d k. induction pre as [|y pre IH]; intros d k; simpl.
  - intros [= _ _ ->] Hx. by rewrite Hx.
  - destruct (write y d) as [[[]|?] d']; [|done].
    destruct (phase write pre d') as [[k1 r1] d1'] eqn:E. intros [= _ -> ->] Hx.
    by rewrite (IH _ _ E Hx).
Qed.

(** X23: a rule write that raises ends the persistence phase on the
    spot.  The rules after the refused one are not written, no news
    entry is written, the connection is released with the exception,
    and the exception is what the phase raises. *)
Theorem refused_rule_ends_the_phase name pre rule rest news w k d1 e d2 :
  let db_api := mkNewsDatabaseAPI (mkConnection name) "shownews_" in
  phase (store_a_scraping_rule_to_db db_api) pre (storage w) = (k, Return tt, d1) →
  store_a_scraping_rule_to_db db_api rule d1 = (Raise e, d2) →
  ∃ w', save_data_into_database name (pre ++ rule :: rest) news w = (Raise e, w') ∧
        called_since w w'
        = Acquire name :: (StoreRule "shownews_" <$> pre ++ [rule])
            ++ [Release (Some e)].
Proof.
  intros db_api Hpre Hrule. rewrite save_data_into_database_runs. fold db_api.
  rewrite (phase_app_Raise _ _ _ rest _ _ _ _ _ _ Hpre Hrule).
  eexists. split; [reflexivity|]. rewrite called_since_add.
  replace (pre ++ rule :: rest) with ((pre ++ [rule]) ++ rest)
    by (by rewrite <- app_assoc).
  replace (S (length pre)) with (length (pre ++ [rule]))
    by (rewrite length_app; simpl; lia).
  by rewrite take_app_length.
Qed.

End MorePersistenceProperties.

Section MoreMainProperties.

Context {Rule News DB Heap Source Category Raw Feed : Type}.
Context {env : LoggingEnv}.
Context {storage_api : @StorageAPI Rule News DB}.
Context {sources : @NewsSourceAPI News Source Category Raw Feed}.
Context {pool : @ThreadPool Source Category Raw}.
Context {pipeline : @PipelineAPI Rule News DB Heap}.
Local Abbreviation World := (@World Rule News DB Heap).

Implicit Types (w : World).

(** X20: [main] never reaches the pipeline.  Whatever the state it is
    started in, it registers [error_log] and then raises
    [AttributeError] at [scraper_utils.default_log_format], a name the
    module does not bind: by then nothing has been logged, stored or
    printed, and the root logger has not been configured. *)
Theorem main_stops_before_the_pipeline w :
  ∃ w', main w = (Raise AttributeError, w') ∧
        has_error_log w' ∧
        root_logger w' = root_logger w ∧
        log_calls w' = log_calls w ∧
        db_calls w' = db_calls w ∧
        storage w' = storage w ∧
        stdout w' = stdout w.
Proof.
  unfold main, timer. unfold mbind, M_bind. unfold bind at 1. unfold gets. cbv beta iota.
  unfold bind at 1.
  rewrite (setup_logger_runs_to "error_log" _ _ _ _ _ eq_refl accepted_error_log).
  unfold bind at 1. unfold scraper_utils_getattr, scraper_utils_strings.
  rewrite lookup_singleton_ne by done. unfold raise. eexists. split; [reflexivity|].
  split_and!; try done. unfold has_error_log. simpl. rewrite lookup_insert_eq. eauto.
Qed.

Lemma logging_info_keeps msg w :
  ∃ w', logging_info msg w = (Return tt, w') ∧
        db_calls w' = db_calls w ∧ stdout w' = stdout w ∧ heap w' = heap w.
Proof.
  unfold logging_info, basicConfig, logger_call. unfold_monad.
  destruct (lg_handlers (root_logger w)); simpl; eauto.
Qed.

Lemma for_each_print (l : list News) (body : News → M unit) w :
  (∀ x w, body x w = (Return tt, add_stdout (news_repr x (heap w)) w)) →
  ∃ w', for_each l body w = (Return tt, w') ∧
        stdout w' = stdout w ++ ((λ n, news_repr n (heap w)) <$> l) ∧
        db_calls w' = db_calls w ∧ heap w' = heap w.
Proof.
  intros Hbody. revert w. induction l as [|x l IH]; intros w; simpl.
  - exists w. by rewrite app_nil_r.
  - unfold mbind, M_bind, bind. rewrite Hbody.
    destruct (IH (add_stdout (news_repr x (heap w)) w)) as (w' & -> & Hs & Hd & Hh).
    exists w'. split; [done|]. rewrite Hs, Hd, Hh. simpl. by rewrite <- app_assoc.
Qed.

Lemma for_each_print_to (l : list News) filename (body : News → M unit) w :
  (∀ x w, body x w
          = (Return tt,
             set_files (alter (λ ls, ls ++ [news_repr x (heap w)]) filename (files w)) w)) →
  ∃ w', for_each l body w = (Return tt, w') ∧
        files w'
        = alter (λ ls, ls ++ ((λ n, news_repr n (heap w)) <$> l)) filename (files w) ∧
        heap w' = heap w.
Proof.
  intros Hbody. revert w. induction l as [|x l IH]; intros w; simpl.
  - exists w. split_and!; try done. apply map_eq. intros i.
    destruct (decide (filename = i)) as [<-|Hne].
    + rewrite lookup_alter_eq. destruct (files w !! filename); simpl; [|done].
      by rewrite app_nil_r.
    + by rewrite lookup_alter_ne.
  - unfold mbind, M_bind, bind. rewrite Hbody.
    match goal with
    | |- context [for_each l _ ?w0] => destruct (IH w0) as (w' & -> & Hf & Hh)
    end.
    exists w'. split; [done|]. rewrite Hf, Hh. simpl. split; [|done].
    apply map_eq. intros i. destruct (decide (filename = i)) as [<-|Hne].
    + rewrite !lookup_alter_eq. destruct (files w !! filename); simpl; [|done].
      by rewrite <- app_assoc.
    + by rewrite !lookup_alter_ne.
Qed.

(** X21: what a completed run of the pipeline leaves behind.  The file
    [output.txt] is rewritten to hold the rendering of every collected
    entry, one a line and in their order, whatever it held before.  The
    storage calls made after the selection are those of one persistence
    phase that stores all the rules and then the selected entries only,
    released without an exception; and the renderings of the selected
    entries, in their order, are what is printed after that. *)
Theorem main_pipeline_writes_what_it_collected start_time w v w' :
  main_pipeline start_time w = (Return v, w') →
  ∃ rules news target w1 w2 w3 w4,
    read_rules_from_file "test.rule" w = (Return rules, w1) ∧
    (get_news_entries MAX_WORKERS RSS_WORKER_TIMEOUT w1).1 = Return news ∧
    files w3
    = <["output.txt" := (λ n, news_repr n (heap w2)) <$> news]> (files w2) ∧
    get_target_news_by_scraping_rules news rules w3 = (Return target, w4) ∧
    called_since w4 w'
    = Acquire "my_focus_news" :: (StoreRule "shownews_" <$> rules)
        ++ (StoreNews "shownews_" <$> target) ++ [Release None] ∧
    stdout w' = stdout w4 ++ ((λ n, news_repr n (heap w4)) <$> target).
Proof.
  intros Hrun.
  unfold main_pipeline in Hrun. unfold mbind, M_bind in Hrun.
  unfold bind at 1 in Hrun.
  destruct (read_rules_from_file "test.rule" w) as [[rules|?] w1] eqn:E1; [|done].
  unfold bind at 1 in Hrun.
  destruct (get_news_entries MAX_WORKERS RSS_WORKER_TIMEOUT w1)
    as [[news|?] w1a] eqn:E2; [|done].
  unfold bind at 1 in Hrun.
  destruct (set_rules_to_news_entries news rules w1a) as [[[]|?] w1b] eqn:E3; [|done].
  unfold bind at 1 in Hrun.
  destruct (logging_info_keeps "Updating 'local_news_sources.txt'..." w1b)
    as (w1c & E4 & _).
  rewrite E4 in Hrun. clear E4. unfold bind at 1 in Hrun.
  destruct (update_local_news_sources_list news "local_news_sources.txt" _)
    as [[[]|?] w2] eqn:E5; [|done].
  unfold bind at 1 in Hrun. unfold open_w at 1, modify at 1 in Hrun.
  unfold bind at 1 in Hrun.
  match type of Hrun with
  | context [for_each news ?body ?w0] =>
      destruct (for_each_print_to news "output.txt" body w0) as (w3 & E6 & Hf3 & _);
        [done|]
  end.
  rewrite E6 in Hrun. clear E6. unfold bind at 1 in Hrun.
  destruct (get_target_news_by_scraping_rules news rules w3)
    as [[target|?] w4] eqn:E7; [|done].
  unfold bind at 1 in Hrun.
  rewrite save_data_into_database_runs in Hrun.
  destruct (phase _ rules (storage w4)) as [[k1 [[]|?]] d1]; [|done].
  destruct (phase _ target d1) as [[k2 [[]|?]] d2] eqn:Ep; [|done].
  apply phase_Return in Ep as ->. rewrite firstn_all in Hrun.
  cbv beta iota zeta in Hrun. unfold bind at 1 in Hrun.
  match type of Hrun with
  | context [logging_info ?msg ?w0] =>
      destruct (logging_info_keeps msg w0) as (w5 & E9 & Hd5 & Hs5 & Hh5)
  end.
  rewrite E9 in Hrun. clear E9. unfold bind at 1 in Hrun.
  match type of Hrun with
  | context [for_each target ?body ?w0] =>
      destruct (for_each_print target body w0) as (w6 & E10 & Hs6 & Hd6 & _); [done|]
  end.
  rewrite E10 in Hrun. clear E10. unfold bind at 1 in Hrun.
  unfold timer, gets in Hrun. unfold bind at 1 in Hrun.
  match type of Hrun with
  | context [logging_info ?msg ?w0] =>
      destruct (logging_info_keeps msg w0) as (w7 & E11 & Hd7 & Hs7 & _)
  end.
  rewrite E11 in Hrun. clear E11. unfold ret in Hrun.
  injection Hrun as <- <-.
  exists rules, news, target, w1, w2, w3, w4.
  split_and!; try done.
  - by rewrite E2.
  - rewrite Hf3. simpl. apply map_eq. intros i.
    destruct (decide ("output.txt" = i)) as [<-|Hne].
    + by rewrite lookup_alter_eq, !lookup_insert_eq.
    + by rewrite lookup_alter_ne, !lookup_insert_ne.
  - unfold called_since. rewrite Hd7, Hd6, Hd5. simpl. by rewrite drop_app_length.
  - rewrite Hs7, Hs6, Hs5, Hh5. done.
Qed.

End MoreMainProperties.

(** * remove_all_data_from_db.py *)

Section CleanupProperties.

Context {Rule News DB Heap : Type}.
Context {cleanup : @remove_all_data_from_db.CleanupAPI DB}.
Local Abbreviation World := (@World Rule News DB Heap).

Implicit Types (w : World).

(** X22: [remove_all_data_from_db.main] resets the news data only after
    the rules and relations were removed without an exception.  It makes
    no storage call of the collector, releases the connection it
    acquired on both ways out, handing it the exception if there is one,
    and raises that exception. *)
Theorem cleanup_resets_news_after_rules w :
  let db_api := mkNewsDatabaseAPI (mkConnection remove_all_data_from_db.DATABASE_CONFIG)
                  remove_all_data_from_db.default_table_prefix in
  let removed := remove_all_data_from_db.remove_all_rules_and_relations db_api (storage w) in
  let '(r, w') := remove_all_data_from_db.main w in
  called_since w w'
  = [Acquire remove_all_data_from_db.DATABASE_CONFIG; Release (exc_of r)] ∧
  match removed.1 with
  | Raise e => r = Raise e ∧ storage w' = removed.2
  | Return _ => (r, storage w') = remove_all_data_from_db.reset_news_data db_api removed.2
  end.
Proof.
  intros db_api removed. unfold removed.
  unfold remove_all_data_from_db.main, with_as, PostgreSqlDB_enter, PostgreSqlDB_exit.
  unfold on_storage. unfold_monad. simpl. fold db_api.
  destruct (remove_all_data_from_db.remove_all_rules_and_relations db_api (storage w))
    as [[[]|e] d1]; simpl.
  - destruct (remove_all_data_from_db.reset_news_data db_api d1) as [[[]|e] d2]; simpl;
      unfold called_since; simpl; rewrite <- ?app_assoc, drop_app_length; done.
  - unfold called_since; simpl; rewrite <- ?app_assoc, drop_app_length; done.
Qed.

End CleanupProperties.

(** * The theorems at the small instance *)

#[local] Existing Instance sample_env.

Ltac by_compute :=
  match goal with
  | |- ?P => apply (bool_decide_unpack P); vm_compute; exact I
  end.

Lemma sample_logged_world_has_error_log : has_error_log sample_logged_world.
Proof. unfold has_error_log. by_compute. Qed.

Lemma sample_fresh_world_lacks_error_log : ¬ has_error_log sample_fresh_world.
Proof. unfold has_error_log. by_compute. Qed.

Lemma rules_are_stored_before_news_witness :
  let calls :=
    called_since sample_logged_world
      (save_data_into_database (storage_api := sample_storage) "my_focus_news"
         sample_rules ["wired.com/story/2"] sample_logged_world).2 in
  (∀ j p' r, calls !! j = Some (StoreRule p' r) → j < 3) ∧
  (∃ rest, calls = Acquire "my_focus_news" :: (StoreRule "shownews_" <$> sample_rules) ++ rest) ∧
  length sample_rules < 3.
Proof.
  apply (rules_are_stored_before_news (storage_api := sample_storage)
           "my_focus_news" sample_rules ["wired.com/story/2"] sample_logged_world
           3 "shownews_" "wired.com/story/2").
  vm_compute. reflexivity.
Defined.

(** A run in which the backend refuses the second rule: no item is
    written, the connection is released with the exception, which the
    phase raises. *)
Example refused_rule_releases_the_connection :
  let run :=
    save_data_into_database (storage_api := sample_storage_refusing) "my_focus_news"
      sample_rules ["wired.com/story/2"] sample_logged_world in
  run.1 = Raise (OtherError "IntegrityError") ∧
  called_since sample_logged_world run.2
  = [Acquire "my_focus_news"; StoreRule "shownews_" (1%Z, "breaking");
     StoreRule "shownews_" (2%Z, "election");
     Release (Some (OtherError "IntegrityError"))].
Proof. split; vm_compute; reflexivity. Qed.

Lemma rule_phase_is_idempotent_witness :
  let run news w :=
    (save_data_into_database (storage_api := sample_spec_storage) "my_focus_news"
       sample_rules news w).2 in
  rule_rows (storage (run ["bbc.co.uk/news/1"] (run ["wired.com/story/2"] sample_store_world)))
  = rule_rows (storage (run ["wired.com/story/2"] sample_store_world)) ∧
  NoDup (fst <$> rule_rows (storage (run ["wired.com/story/2"] sample_store_world))) ∧
  NoDup (fst <$> rule_rows (storage (run ["bbc.co.uk/news/1"]
                                       (run ["wired.com/story/2"] sample_store_world)))).
Proof.
  destruct (rule_phase_is_idempotent fst id (λ _, [1%Z]) "my_focus_news" sample_rules
              ["wired.com/story/2"] ["bbc.co.uk/news/1"] sample_store_world)
    as [Hsame Hnodup].
  split; [exact Hsame|]. apply Hnodup. by_compute.
Defined.

(** The rows of the instance after one run and after two. *)
Example sample_rule_rows :
  rule_rows (storage (save_data_into_database (storage_api := sample_spec_storage)
                        "my_focus_news" sample_rules ["wired.com/story/2"]
                        sample_store_world).2)
  = [(1%Z, "breaking"); (2%Z, "election")].
Proof. vm_compute. reflexivity. Qed.

Lemma sample_all_finish_valid :
  valid_completion 3
    (as_completed (ThreadPool := sample_pool_all_finish) 10 120
       (submitted_tasks (sources := sample_sources))).
Proof. split_and!; [by_compute|by_compute|done]. Qed.

Lemma fetch_failure_is_isolated_witness :
  (failure_is_isolated (sources := sample_sources) (pool := sample_pool_all_finish)
     10 120 sample_logged_world 0 (HTTPError 404) ∧
   (retrieve_registered_news_by_rss (sources := sample_sources)
      (pool := sample_pool_all_finish) 10 120 sample_logged_world).1.2 = Return tt) ∧
  (retrieve_registered_news_by_rss (sources := sample_sources)
     (pool := sample_pool_all_finish) 10 120 sample_fresh_world).1.2
  = Raise (NewsScrapperError "Please set up 'error_log' logger first.").
Proof.
  assert (valid_completion 3
            (as_completed (ThreadPool := sample_pool_all_finish) 10 120
               (submitted_tasks (sources := sample_sources)))) as Hvalid.
  { split_and!; [by_compute|by_compute|done]. }
  assert ((0, Raise (HTTPError 404))
            ∈ finished (as_completed (ThreadPool := sample_pool_all_finish) 10 120
                          (submitted_tasks (sources := sample_sources)))) as Hin.
  { apply (list_elem_of_lookup_2 _ 1). reflexivity. }
  split.
  - apply (fetch_failure_is_isolated (sources := sample_sources)
             (pool := sample_pool_all_finish) 10 120 sample_logged_world 0
             (HTTPError 404)); [done|repeat constructor|done|].
    unfold has_error_log. by_compute.
  - apply (fetch_failure_is_isolated (sources := sample_sources)
             (pool := sample_pool_all_finish) 10 120 sample_fresh_world 0
             (HTTPError 404)); [done|repeat constructor|done|].
    unfold has_error_log. by_compute.
Defined.

(** Without the logger the failed fetch of task 0 ends the generator
    before the feed of task 1 is yielded; with the logger, a fetch that
    ended in another exception ends it before task 0 is logged. *)
Lemma fetch_failure_is_not_always_isolated :
  ¬ failure_is_isolated (sources := sample_sources) (pool := sample_pool_all_finish)
      10 120 sample_fresh_world 0 (HTTPError 404) ∧
  ¬ failure_is_isolated (sources := sample_sources) (pool := sample_pool_reset)
      10 120 sample_logged_world 0 (URLError "refused").
Proof.
  split; unfold failure_is_isolated.
  - destruct (retrieve_registered_news_by_rss _ _ _) as [[feeds r] w'] eqn:E.
    vm_compute in E. injection E as <- <- <-.
    intros (_ & _ & Hfeeds).
    specialize (Hfeeds (1, Return "wired.com/story/2") ["wired.com/story/2"]).
    assert (["wired.com/story/2"] ∈ [["bbc.co.uk/news/1"]]) as Hin.
    { apply Hfeeds; [|reflexivity]. apply (list_elem_of_lookup_2 _ 2). reflexivity. }
    apply list_elem_of_singleton in Hin. discriminate.
  - destruct (retrieve_registered_news_by_rss _ _ _) as [[feeds r] w'] eqn:E.
    vm_compute in E. injection E as <- <- <-.
    intros (_ & _ & Hfeeds).
    specialize (Hfeeds (1, Return "wired.com/story/2") ["wired.com/story/2"]).
    assert (["wired.com/story/2"] ∈ @nil (list string)) as Hin.
    { apply Hfeeds; [|reflexivity]. apply (list_elem_of_lookup_2 _ 2). reflexivity. }
    by apply elem_of_nil in Hin.
Qed.

Lemma every_finished_task_is_accounted_witness :
  every_task_is_accounted (sources := sample_sources) (pool := sample_pool_all_finish)
    10 120 sample_logged_world 1.
Proof.
  refine (proj1 (every_finished_task_is_accounted
                   (sources := sample_sources) (pool := sample_pool_all_finish)
                   10 120 sample_logged_world _ _ _ _)).
  - unfold has_error_log. by_compute.
  - split_and!; [by_compute|by_compute|done].
  - reflexivity.
  - repeat constructor.
Defined.

(** With three tasks and no failed fetch, a deadline that fires after
    one of them leaves one feed, not three; and without the logger the
    run with one failed fetch leaves one feed, not two. *)
Lemma not_every_task_is_accounted :
  ¬ every_task_is_accounted (sources := sample_sources) (pool := sample_pool_deadline)
      10 120 sample_logged_world 0 ∧
  ¬ every_task_is_accounted (sources := sample_sources) (pool := sample_pool_all_finish)
      10 120 sample_fresh_world 1.
Proof.
  split; unfold every_task_is_accounted;
    destruct (retrieve_registered_news_by_rss _ _ _) as [[feeds r] w'] eqn:E;
    vm_compute in E; injection E as <- <- <-; intros [Hlen _]; vm_compute in Hlen;
    discriminate.
Qed.

Lemma deadline_abandons_outstanding_tasks_witness :
  deadline_is_survived (sources := sample_sources) (pool := sample_pool_deadline)
    10 120 sample_logged_world.
Proof.
  refine (proj1 (deadline_abandons_outstanding_tasks
                   (sources := sample_sources) (pool := sample_pool_deadline)
                   10 120 sample_logged_world "2 (of 3) futures unfinished" _ _ _ _)).
  - unfold has_error_log. by_compute.
  - split_and!; [by_compute|by_compute|done].
  - reflexivity.
  - repeat constructor.
Defined.

(** Without the logger the deadline ends the generator with
    [NewsScrapperError]; with it, a fetch that finished with another
    exception ends the generator before the deadline is met. *)
Lemma deadline_is_not_always_survived :
  ¬ deadline_is_survived (sources := sample_sources) (pool := sample_pool_deadline)
      10 120 sample_fresh_world ∧
  ¬ deadline_is_survived (sources := sample_sources) (pool := sample_pool_reset_deadline)
      10 120 sample_logged_world.
Proof.
  split; unfold deadline_is_survived;
    destruct (retrieve_registered_news_by_rss _ _ _) as [[feeds r] w'] eqn:E;
    vm_compute in E; injection E as <- <- <-; intros [Hr _]; discriminate.
Qed.



(** The two runs of the instance: one feed within thirty seconds, two
    within a hundred and twenty. *)
Example sample_feeds_by_deadline :
  (retrieve_registered_news_by_rss (sources := sample_sources)
     (pool := sample_pool_timed) 10 30 sample_logged_world).1.1
  = [["wired.com/story/2"]] ∧
  (retrieve_registered_news_by_rss (sources := sample_sources)
     (pool := sample_pool_timed) 10 120 sample_logged_world).1.1
  = [["wired.com/story/2"]; ["bbc.co.uk/news/1"]].
Proof. split; vm_compute; reflexivity. Qed.

Lemma log_warning_requires_error_log_witness :
  (∃ w', log_warning "disk full" false sample_fresh_world
         = (Raise (NewsScrapperError "Please set up 'error_log' logger first."), w')) ∧
  log_warning "disk full" true sample_logged_world
  = (Return tt, add_log (mkLog "error_log" LvError "disk full") sample_logged_world) ∧
  (∃ w', retrieve_registered_news_by_rss
           (sources := sample_sources) (pool := sample_pool_all_finish)
           10 120 sample_fresh_world
         = ([["bbc.co.uk/news/1"]],
            Raise (NewsScrapperError "Please set up 'error_log' logger first."), w')).
Proof.
  destruct (log_warning_requires_error_log
              (sources := sample_sources) (pool := sample_pool_all_finish)
              "disk full" false sample_fresh_world) as (Hraise & _ & Hcollector).
  destruct (log_warning_requires_error_log
              (sources := sample_sources) (pool := sample_pool_all_finish)
              "disk full" true sample_logged_world) as (_ & Hlog & _).
  split_and!.
  - apply Hraise. unfold has_error_log. by_compute.
  - apply Hlog. unfold has_error_log. by_compute.
  - apply (Hcollector sample_fresh_world_lacks_error_log 10%positive 120%Z
             [(2, Return "bbc.co.uk/news/1")]
             [(0, Raise (HTTPError 404)); (1, Return "wired.com/story/2")]).
    + reflexivity.
    + repeat constructor. by eexists.
    + by eexists.
Defined.

(** [lstrip('www.')] strips by character set: the leading [w] of the
    name goes too. *)
Example www_wired_com_loses_its_w :
  (extract_domain_name_from_url "http://www.wired.com/story/2" sample_fresh_world).1
  = Return (Some "ired.com").
Proof. vm_compute. reflexivity. Qed.

Lemma extract_domain_name_from_url_spec_witness :
  (∃ out, extract_domain_name_from_url "http://www.wired.com/story/2" sample_fresh_world
          = (Return (Some out), sample_fresh_world) ∧
          strips_leading w_or_dot "www.wired.com" out) ∧
  unmatched_link_is_logged "ftp://example.org/feed" sample_logged_world ∧
  (∃ w', extract_domain_name_from_url "ftp://example.org/feed" sample_fresh_world
         = (Raise (NewsScrapperError "Please set up 'error_log' logger first."), w')).
Proof.
  destruct (extract_domain_name_from_url_spec "http://www.wired.com/story/2"
              sample_fresh_world) as [Hmatch _].
  destruct (extract_domain_name_from_url_spec "ftp://example.org/feed"
              sample_logged_world) as [_ Hlogged].
  destruct (extract_domain_name_from_url_spec "ftp://example.org/feed"
              sample_fresh_world) as [_ Hfresh].
  split_and!.
  - apply Hmatch. exists "http://", "story/2". split_and!; [by left|done|done|done].
  - apply Hlogged.
    + by apply base_url_pattern_no_match.
    + unfold has_error_log. by_compute.
  - apply Hfresh.
    + by apply base_url_pattern_no_match.
    + unfold has_error_log. by_compute.
Defined.

(** A link outside the pattern, with no logger set up: the call raises
    instead of returning [None]. *)
Lemma unmatched_link_without_error_log :
  (∀ host, ¬ matches_base_url_pattern "ftp://example.org/feed" host) ∧
  ¬ unmatched_link_is_logged "ftp://example.org/feed" sample_fresh_world.
Proof.
  split.
  - by apply base_url_pattern_no_match.
  - intros (w' & msg & E & _). vm_compute in E. discriminate.
Qed.

Lemma main_pipeline_logs_the_counts_witness :
  let run :=
    main_pipeline (storage_api := sample_storage) (sources := sample_sources)
      (pool := sample_pool_all_finish) (pipeline := sample_pipeline)
      0 sample_logged_world in
  run.1 = Return PyNone ∧
  logged_since sample_logged_world run.2
  = [retrieving_record (sources := sample_sources);
     warning "HTTP Error 404 for RSS feed 'https://wired.com/rss/business'";
     mkLog "root" LvInfo "Updating 'local_news_sources.txt'...";
     mkLog "root" LvInfo "Record 1 news out of total 2 news.";
     mkLog "root" LvInfo "Done. Elapsed time: 0.000000 seconds"] ∧
  ∃ rules news target w1 w2 w3 w4 w5 elapsed,
    read_rules_from_file (PipelineAPI := sample_pipeline) "test.rule" sample_logged_world
    = (Return rules, w1) ∧
    get_news_entries (sources := sample_sources) (pool := sample_pool_all_finish)
      MAX_WORKERS RSS_WORKER_TIMEOUT w1 = (Return news, w2) ∧
    get_target_news_by_scraping_rules (PipelineAPI := sample_pipeline) news rules w3
    = (Return target, w4) ∧
    save_data_into_database (storage_api := sample_storage) "my_focus_news" rules target w4
    = (Return tt, w5) ∧
    logged_since w5 run.2
    = [mkLog "root" LvInfo (record_message (length target) (length news));
       mkLog "root" LvInfo ("Done. Elapsed time: " +:+ elapsed +:+ " seconds")].
Proof.
  intros run. split_and!; [vm_compute; reflexivity..|].
  apply (main_pipeline_logs_the_counts
           (storage_api := sample_storage) (sources := sample_sources)
           (pool := sample_pool_all_finish) (pipeline := sample_pipeline)
           0 sample_logged_world PyNone run.2).
  vm_compute. reflexivity.
Defined.

(** [main] does not hand back a pair of counts. *)
Lemma main_does_not_return_the_counts :
  ¬ returns_the_counts
      (main (storage_api := sample_storage) (sources := sample_sources)
         (pool := sample_pool_all_finish) (pipeline := sample_pipeline)
         sample_fresh_world).1.
Proof.
  intros (total & matched & Hr). vm_compute in Hr. discriminate.
Qed.

(** * The further properties at the small instance *)

Lemma sample_fresh_world_consistent : class_logger_consistent sample_fresh_world.
Proof. by left. Qed.

Lemma sample_accepted : accepted (Some "app.log") "%(message)s".
Proof. split; [reflexivity|]. intros f [= <-]. reflexivity. Qed.

Lemma setup_logger_registers_one_logger_witness :
  ∃ w', setup_logger "rss" LvInfo (Some "app.log") true "%(message)s"
          sample_logged_world
        = (Return "rss", w') ∧
        loggerDict w' !! "rss"
        = Some (mkLogger (Some LvInfo)
                  [FileHandler "app.log" "%(message)s"; StreamHandler "%(message)s"]) ∧
        loggerDict w' !! "error_log" = loggerDict sample_logged_world !! "error_log" ∧
        files w' !! "app.log" = Some [].
Proof.
  destruct (setup_logger_registers_one_logger "rss" LvInfo (Some "app.log") true
              "%(message)s" sample_logged_world eq_refl eq_refl sample_accepted)
    as (w' & E & Hname & Hother & _ & _ & _ & Hfiles).
  exists w'. split_and!; [exact E|exact Hname| |].
  - by rewrite (Hother "error_log").
  - rewrite Hfiles. reflexivity.
Defined.

Lemma setup_logger_twice_keeps_both_handlers_witness :
  let w1 := (setup_logger "error_log" LvWarning (Some "error.log") false
               DEFAULT_LOG_FORMAT sample_logged_world).2 in
  loggerDict w1 !! "error_log"
  = Some (mkLogger (Some LvWarning)
            [FileHandler "error.log" DEFAULT_LOG_FORMAT;
             FileHandler "error.log" DEFAULT_LOG_FORMAT]).
Proof.
  apply (setup_logger_twice_keeps_both_handlers "error_log"
           LvWarning (Some "error.log") false DEFAULT_LOG_FORMAT
           LvWarning (Some "error.log") false DEFAULT_LOG_FORMAT
           sample_fresh_world eq_refl accepted_error_log accepted_error_log).
Defined.

(** A child of [error_log]: its parent is registered with it, as a
    placeholder, and [log_warning] finds the name. *)
Example child_logger_registers_its_parent :
  let w1 := (setup_logger "error_log.rss" LvInfo None true "%(message)s"
               sample_fresh_world).2 in
  loggerDict w1 !! "error_log" = Some (mkLogger None []) ∧
  (log_warning "disk full" false w1).1 = Return tt.
Proof. split; vm_compute; reflexivity. Qed.

Lemma setup_logger_for_a_root_name_witness :
  ∃ w', setup_logger EmptyString LvInfo None true "%(message)s" sample_fresh_world
        = (Return "root", w') ∧
        loggerDict w' = loggerDict sample_fresh_world ∧
        root_logger w' = mkLogger (Some LvInfo) [StreamHandler "%(message)s"] ∧
        ¬ has_error_log w'.
Proof.
  destruct (setup_logger_for_a_root_name EmptyString LvInfo None true "%(message)s"
              sample_fresh_world) as (w' & E & Hd & Hroot & _ & _ & Hlog).
  - by left.
  - split; [reflexivity|]. intros f [=].
  - exists w'. split_and!; [exact E|exact Hd|exact Hroot|].
    rewrite Hlog. unfold has_error_log. by_compute.
Defined.

(** The root directory as the log file of [error_log]: the call raises,
    and leaves the logger registered without a handler. *)
Lemma setup_logger_raises_half_way_witness :
  setup_logger "error_log" LvInfo (Some "app.log") true "100%" sample_fresh_world
  = (Raise (OtherError "ValueError"), sample_fresh_world) ∧
  ∃ w', setup_logger "error_log" LvInfo (Some "/") true DEFAULT_LOG_FORMAT
          sample_fresh_world
        = (Raise (OtherError "IsADirectoryError"), w') ∧
        loggerDict w' !! "error_log" = Some (mkLogger (Some LvInfo) []) ∧
        files w' = files sample_fresh_world.
Proof.
  split.
  - apply (setup_logger_raises_half_way "error_log" LvInfo (Some "app.log") true "100%"
             sample_fresh_world). reflexivity.
  - destruct (setup_logger_raises_half_way "error_log" LvInfo (Some "/") true
                DEFAULT_LOG_FORMAT sample_fresh_world) as [_ Hfile].
    destruct (Hfile "/" (OtherError "IsADirectoryError") eq_refl eq_refl eq_refl eq_refl)
      as (w' & E & Hname & Hfiles & _).
    exists w'. split_and!; [exact E|exact Hname|exact Hfiles].
Defined.

Lemma log_warning_returns_after_setup_witness :
  let w1 := (setup_logger "error_log" LvInfo (Some "/") true DEFAULT_LOG_FORMAT
               sample_fresh_world).2 in
  log_warning "disk full" false w1
  = (Return tt, add_log (mkLog "error_log" LvWarning "disk full") w1).
Proof.
  apply (log_warning_returns_after_setup LvInfo (Some "/") true DEFAULT_LOG_FORMAT
           "disk full" false sample_fresh_world).
  reflexivity.
Defined.

(** A format the formatter rejects: nothing is registered, and
    [log_warning] raises as before. *)
Example rejected_format_registers_nothing :
  (log_warning "disk full" false
     (setup_logger "error_log" LvInfo None true "100%" sample_fresh_world).2).1
  = Raise (NewsScrapperError "Please set up 'error_log' logger first.").
Proof. vm_compute. reflexivity. Qed.

Lemma log_warning_fails_at_most_once_witness :
  ∃ w', log_warning "disk full" false sample_fresh_world
        = (Raise (NewsScrapperError "Please set up 'error_log' logger first."), w') ∧
        log_calls w'
        = [mkLog "error_log" LvError "Please set up 'error_log' logger first."] ∧
        ∀ msg is_error, (log_warning msg is_error w').1 = Return tt.
Proof.
  destruct (log_warning_fails_at_most_once "disk full" false sample_fresh_world)
    as (w' & E & _ & Hl & _ & Hlater).
  - by left.
  - unfold has_error_log. by_compute.
  - exists w'. split_and!; [exact E|exact Hl|].
    intros msg is_error. by rewrite Hlater.
Defined.

Lemma NewsScrapperError_reuses_error_log_witness :
  ∃ w', NewsScrapperError_init "no rules" sample_logged_world
        = (Return (NewsScrapperError "no rules"), w') ∧
        loggerDict w' = loggerDict sample_logged_world ∧
        log_calls w' = log_calls sample_logged_world ++ [mkLog "error_log" LvError "no rules"] ∧
        NewsScrapperError_logger w' = Some "error_log".
Proof.
  apply (NewsScrapperError_reuses_error_log "no rules" sample_logged_world).
  - by left.
  - unfold has_error_log. by_compute.
Defined.

Lemma scraper_utils_keeps_class_logger_consistent_witness :
  class_logger_consistent
    (log_warning "disk full" false sample_fresh_world).2 ∧
  class_logger_consistent
    (extract_domain_name_from_url "ftp://example.org/feed" sample_fresh_world).2 ∧
  class_logger_consistent
    (read_json_from_file (json := sample_json_api) "missing.json" sample_fresh_world).2.
Proof.
  destruct (scraper_utils_keeps_class_logger_consistent (json := sample_json_api)
              sample_fresh_world) as (_ & Hlog & _ & Hextract & Hread).
  - by left.
  - split_and!; [apply Hlog|apply Hextract|apply Hread].
Defined.

Lemma link_without_slash_after_host_is_rejected_witness :
  (∀ h, ¬ matches_base_url_pattern "http://example.com:8080/feed" h) ∧
  extract_domain_name_from_url "http://example.com:8080/feed" sample_logged_world
  = (Return None,
     add_log (warning "News link [http://example.com:8080/feed] does not match base_url_pattern.")
             sample_logged_world).
Proof.
  apply (link_without_slash_after_host_is_rejected "http://" "example.com" ":8080/feed"
           sample_logged_world).
  - by left.
  - reflexivity.
  - split; [reflexivity|done].
  - unfold has_error_log. by_compute.
Defined.

Lemma extracted_name_shape_witness :
  ∃ out, extract_domain_name_from_url "http://www.wired.com/story/2" sample_fresh_world
         = (Return (Some out), sample_fresh_world) ∧
         string_forall host_char out = true ∧
         String.length out ≤ String.length "www.wired.com" ∧
         (out = EmptyString ↔ string_forall w_or_dot "www.wired.com" = true).
Proof.
  apply (extracted_name_shape "http://www.wired.com/story/2" "www.wired.com"
           sample_fresh_world).
  exists "http://", "story/2". split_and!; [by left|done|done|done].
Defined.

Lemma read_json_from_file_with_error_log_witness :
  read_json_from_file (json := sample_json_api) "seven.json" sample_files_world
  = (Return (JsonNumber 7), sample_files_world) ∧
  read_json_from_file (json := sample_json_api) "broken.json" sample_files_world
  = (Return (JsonDict []),
     add_log (warning "Fail to parse the content of file 'broken.json' as JSON. ")
             sample_files_world) ∧
  read_json_from_file (json := sample_json_api) "missing.json" sample_files_world
  = (Return (JsonDict []),
     add_log (warning "File 'missing.json' not found.") sample_files_world) ∧
  read_json_from_file (json := sample_json_api) "." sample_files_world
  = (Raise (OtherError "IsADirectoryError"), sample_files_world).
Proof.
  assert (has_error_log sample_files_world) as Hlog.
  { unfold has_error_log. by_compute. }
  split_and!.
  - exact (read_json_from_file_with_error_log (json := sample_json_api)
             "seven.json" sample_files_world Hlog).
  - exact (read_json_from_file_with_error_log (json := sample_json_api)
             "broken.json" sample_files_world Hlog).
  - exact (read_json_from_file_with_error_log (json := sample_json_api)
             "missing.json" sample_files_world Hlog).
  - exact (read_json_from_file_with_error_log (json := sample_json_api)
             "." sample_files_world Hlog).
Defined.

(** Without the logger the file that does not parse costs an exception. *)
Example broken_file_without_error_log :
  (read_json_from_file (json := sample_json_api) "broken.json" sample_files_fresh_world).1
  = Raise (NewsScrapperError "Please set up 'error_log' logger first.").
Proof. vm_compute. reflexivity. Qed.


(** Asked for [error.log] in an interpreter without the logger, the
    call leaves a file of that name behind: the exception raised for
    the missing logger has set one up. *)
Example error_log_is_created_by_the_exception :
  files sample_files_fresh_world !! "error.log" = None ∧
  files (read_json_from_file (json := sample_json_api) "error.log"
           sample_files_fresh_world).2 !! "error.log" = Some [].
Proof. split; vm_compute; reflexivity. Qed.

Lemma sequential_collector_skips_failures_witness :
  retrieve_registered_news_by_rss_sequentially
    (sources := sample_sources) (feeds := sample_feeds) sample_fresh_world
  = ([["wired.com/story/2"]; ["bbc.co.uk/news/1"]], Return tt, sample_fresh_world).
Proof.
  apply (sequential_collector_skips_failures
           (sources := sample_sources) (feeds := sample_feeds) sample_fresh_world).
  repeat constructor.
Defined.


Lemma collectors_agree_up_to_order_witness :
  (retrieve_registered_news_by_rss
     (sources := sample_sources) (pool := sample_pool_all_finish)
     10 120 sample_logged_world).1.1
  ≡ₚ (retrieve_registered_news_by_rss_sequentially
        (sources := sample_sources) (feeds := sample_feeds) sample_logged_world).1.1.
Proof.
  apply (collectors_agree_up_to_order
           (sources := sample_sources) (pool := sample_pool_all_finish)
           (feeds := sample_feeds) 10%positive 120%Z sample_logged_world).
  - unfold has_error_log. by_compute.
  - split_and!; [by_compute|by_compute|done].
  - reflexivity.
  - repeat constructor.
  - intros i o news_src category Hf Hi. simpl in Hf.
    repeat (apply elem_of_cons in Hf as [Hf|Hf];
            [injection Hf as -> ->; injection Hi as <- <-; reflexivity|]).
    by apply elem_of_nil in Hf.
Defined.

Lemma nothing_registered_nothing_collected_witness :
  ∃ w', retrieve_registered_news_by_rss
          (sources := sample_sources_idle) (pool := sample_pool_idle)
          10 120 sample_fresh_world
        = ([], Return tt, w') ∧
        logged_since sample_fresh_world w'
        = [mkLog "root" LvInfo "Retrieving 0 RSS feeds concurrently."].
Proof.
  apply (nothing_registered_nothing_collected
           (sources := sample_sources_idle) (pool := sample_pool_idle)
           10%positive 120%Z sample_fresh_world).
  - done.
  - split_and!; [by_compute|by_compute|done].
Defined.

Lemma fetch_timeout_is_taken_for_the_deadline_witness :
  ∃ w', retrieve_registered_news_by_rss
          (sources := sample_sources) (pool := sample_pool_fetch_timeout)
          10 120 sample_logged_world
        = ([["bbc.co.uk/news/1"]], Return tt, w') ∧
        logged_since sample_logged_world w'
        = [retrieving_record (sources := sample_sources);
           warning "Timeout in news_collector: timed out"].
Proof.
  apply (fetch_timeout_is_taken_for_the_deadline
           (sources := sample_sources) (pool := sample_pool_fetch_timeout)
           10%positive 120%Z sample_logged_world
           [(2, Return "bbc.co.uk/news/1")] 1 "timed out"
           [(0, Return "wired.com/story/1")]).
  - unfold has_error_log. by_compute.
  - reflexivity.
  - repeat constructor.
  - repeat constructor.
Defined.

Lemma other_exception_leaves_the_collector_witness :
  ∃ w', retrieve_registered_news_by_rss
          (sources := sample_sources) (pool := sample_pool_reset)
          10 120 sample_logged_world
        = ([], Raise (OtherError "ConnectionResetError"), w') ∧
        logged_since sample_logged_world w'
        = [retrieving_record (sources := sample_sources)].
Proof.
  apply (other_exception_leaves_the_collector
           (sources := sample_sources) (pool := sample_pool_reset)
           10%positive 120%Z sample_logged_world
           [] 2 (OtherError "ConnectionResetError")
           [(0, Raise (URLError "refused")); (1, Return "wired.com/story/2")]).
  - unfold has_error_log. by_compute.
  - reflexivity.
  - constructor.
  - repeat constructor.
  - reflexivity.
  - done.
Defined.

Lemma get_news_entries_returns_what_was_handed_over_witness :
  ∃ w', get_news_entries (sources := sample_sources) (pool := sample_pool_deadline)
          10 120 sample_logged_world
        = (Return ["wired.com/story/2"], w') ∧
        logged_since sample_logged_world w'
        = [retrieving_record (sources := sample_sources);
           warning "Timeout in news_collector: 2 (of 3) futures unfinished"].
Proof.
  apply (get_news_entries_returns_what_was_handed_over
           (sources := sample_sources) (pool := sample_pool_deadline)
           10%positive 120%Z sample_logged_world).
  - unfold has_error_log. by_compute.
  - split_and!; [by_compute|by_compute|done].
  - repeat constructor.
Defined.

Lemma get_news_entries_loses_everything_without_error_log_witness :
  ∃ w', get_news_entries (sources := sample_sources) (pool := sample_pool_all_finish)
          10 120 sample_fresh_world
        = (Raise (NewsScrapperError "Please set up 'error_log' logger first."), w').
Proof.
  apply (get_news_entries_loses_everything_without_error_log
           (sources := sample_sources) (pool := sample_pool_all_finish)
           10%positive 120%Z sample_fresh_world
           [(2, Return "bbc.co.uk/news/1")] (0, Raise (HTTPError 404))
           [(1, Return "wired.com/story/2")]).
  - unfold has_error_log. by_compute.
  - reflexivity.
  - repeat constructor. by eexists.
  - by eexists.
Defined.

(** [main] at the small instance: the pipeline is not reached. *)
Example sample_main_stops :
  (main (storage_api := sample_storage) (sources := sample_sources)
     (pool := sample_pool_all_finish) (pipeline := sample_pipeline)
     sample_fresh_world).1
  = Raise AttributeError.
Proof. vm_compute. reflexivity. Qed.

Lemma main_pipeline_writes_what_it_collected_witness :
  let run :=
    main_pipeline (storage_api := sample_storage) (sources := sample_sources)
      (pool := sample_pool_all_finish) (pipeline := sample_pipeline)
      0 sample_logged_world in
  files run.2 !! "output.txt" = Some ["bbc.co.uk/news/1"; "wired.com/story/2"] ∧
  stdout run.2 = ["bbc.co.uk/news/1"] ∧
  ∃ rules news target (w1 w2 w3 w4 : @World (Z * string) string unit unit),
    read_rules_from_file (PipelineAPI := sample_pipeline) "test.rule" sample_logged_world
    = (Return rules, w1) ∧
    (get_news_entries (sources := sample_sources) (pool := sample_pool_all_finish)
       MAX_WORKERS RSS_WORKER_TIMEOUT w1).1 = Return news ∧
    files w3
    = <["output.txt" := (λ n, news_repr (PipelineAPI := sample_pipeline) n (heap w2)) <$> news]>
        (files w2) ∧
    get_target_news_by_scraping_rules (PipelineAPI := sample_pipeline) news rules w3
    = (Return target, w4) ∧
    called_since w4 run.2
    = Acquire "my_focus_news" :: (StoreRule "shownews_" <$> rules)
        ++ (StoreNews "shownews_" <$> target) ++ [Release None] ∧
    stdout run.2
    = stdout w4 ++ ((λ n, news_repr (PipelineAPI := sample_pipeline) n (heap w4)) <$> target).
Proof.
  intros run. split_and!; [vm_compute; reflexivity..|].
  apply (main_pipeline_writes_what_it_collected
           (storage_api := sample_storage) (sources := sample_sources)
           (pool := sample_pool_all_finish) (pipeline := sample_pipeline)
           0 sample_logged_world PyNone run.2).
  vm_compute. reflexivity.
Defined.

Lemma refused_rule_ends_the_phase_witness :
  ∃ w', save_data_into_database (storage_api := sample_storage_refusing) "my_focus_news"
          ([(1%Z, "breaking")] ++ (2%Z, "election") :: [(3%Z, "storm")])
          ["wired.com/story/2"] sample_logged_world
        = (Raise (OtherError "IntegrityError"), w') ∧
        called_since sample_logged_world w'
        = Acquire "my_focus_news"
            :: (StoreRule "shownews_" <$> [(1%Z, "breaking")] ++ [(2%Z, "election")])
            ++ [Release (Some (OtherError "IntegrityError"))].
Proof.
  apply (refused_rule_ends_the_phase (storage_api := sample_storage_refusing)
           "my_focus_news" [(1%Z, "breaking")] (2%Z, "election") [(3%Z, "storm")]
           ["wired.com/story/2"] sample_logged_world 1 tt (OtherError "IntegrityError") tt).
  - reflexivity.
  - reflexivity.
Defined.

(** The cleanup at the small instance: one connection, acquired and
    released. *)
Example sample_cleanup_calls :
  called_since sample_logged_world
    (remove_all_data_from_db.main (cleanup := sample_cleanup) sample_logged_world).2
  = [Acquire "my_focus_news"; Release None].
Proof. vm_compute. reflexivity. Qed.
